(** * Layered settings of animatediff: a shallow embedding of
      [src/animatediff/settings.py]

    The module builds two pydantic (v1) settings classes, [InferenceConfig] and
    [ModelConfig], whose [Config] inherits [JsonConfig]; [JsonConfig] replaces
    the framework's default sources by the pair (init arguments,
    [JsonSettingsSource]); two accessors wrap the constructors in
    [functools.lru_cache(maxsize=2)].

    The parts of Python, pydantic and functools the module calls are embedded
    next to it, each under the name it has there. *)

From Stdlib Require Import String Ascii List ZArith Bool Arith Lia PrimFloat.
From Stdlib Require Import DecimalString.
From Stdlib Require Import Floats.FloatOps Floats.SpecFloat.
Import ListNotations.
Open Scope string_scope.
Set Warnings "-register-all".

(** ** Python values *)

Module Py.

(** [pathlib.Path], identified with the text [str(path)] prints. *)
Record Path := mkPath { path_str : string }.

(** The values that reach the settings classes: what [json.loads] produces,
    and [Path] objects given by callers.  Dictionaries have string keys, as
    JSON objects and keyword arguments do; the items are kept in insertion
    order. *)
Inductive value :=
| VNone
| VBool (b : bool)
| VInt (z : Z)
| VFloat (f : float)
| VStr (s : string)
| VPath (p : Path)
| VList (l : list value)
| VDict (d : list (string * value)).

Definition dict := list (string * value).

(** Exceptions that cross the module. *)
Inductive loc_item := LField (name : string) | LIndex (i : nat).

Inductive error_kind :=
| MissingError            (* value_error.missing *)
| ExtraError              (* value_error.extra *)
| NoneIsNotAllowedError   (* type_error.none.not_allowed *)
| StrError | IntegerError | FloatError | PathError | ListError | DictError
| Escaped_OverflowError.
  (* no error of pydantic: the mark of an OverflowError that a validator
     raised and the validators' caller does not catch; see [BaseModel_init] *)

Definition error_wrapper := (list loc_item * error_kind)%type.

Inductive exn :=
| FileNotFoundError (msg : string)
| TypeError (msg : string)
| UnicodeDecodeError
| JSONDecodeError
| OverflowError
| ValidationError (errors : list error_wrapper).

Inductive result (A : Type) :=
| Ok (a : A)
| Raise (e : exn).
Arguments Ok {A} a.
Arguments Raise {A} e.

Definition bind {A B} (r : result A) (k : A -> result B) : result B :=
  match r with
  | Ok a => k a
  | Raise e => Raise e
  end.

Definition keys (d : dict) : list string := map fst d.

(** [d.get(k)] / [k in d]. *)
Fixpoint dict_get (k : string) (d : dict) : option value :=
  match d with
  | [] => None
  | (k', v) :: d' => if String.eqb k k' then Some v else dict_get k d'
  end.

(** [d[k] = v]: an existing key keeps its place, a new one goes last. *)
Fixpoint dict_set (k : string) (v : value) (d : dict) : dict :=
  match d with
  | [] => [(k, v)]
  | (k', v') :: d' =>
      if String.eqb k k' then (k', v) :: d' else (k', v') :: dict_set k v d'
  end.

Fixpoint dict_del (k : string) (d : dict) : dict :=
  match d with
  | [] => []
  | (k', v') :: d' => if String.eqb k k' then d' else (k', v') :: dict_del k d'
  end.

(** [d.pop(k, default)]: the value and the dictionary left behind. *)
Definition dict_pop (k : string) (default : value) (d : dict) : value * dict :=
  match dict_get k d with
  | Some v => (v, dict_del k d)
  | None => (default, d)
  end.

(** [d.update(other)] for a dictionary [other]. *)
Definition dict_update (d other : dict) : dict :=
  fold_left (fun acc kv => dict_set (fst kv) (snd kv) acc) other d.

(** A list of items is a Python dictionary when no key occurs twice. *)
Definition dict_wf (d : dict) : Prop := NoDup (keys d).

(** The text an f-string prints for a non-negative int. *)
Definition str_of_nat (n : nat) : string :=
  NilEmpty.string_of_uint (Nat.to_uint n).

(** The builtins of the interpreter the module and pydantic's validators call
    on scalars, with [None] where the call raises. *)
Record builtins := {
  path_of_str : string -> Path;           (* pathlib: [Path(s)] *)
  path_type_error : value -> string;      (* the message of the TypeError
                                             of [Path(x)], [x] no str or Path *)
  int_of_str : string -> option Z;        (* [int(s)] *)
  int_of_float : float -> option Z;       (* [int(x)] *)
  float_of_str : string -> option float;  (* [float(s)] *)
  float_of_int : Z -> option float;       (* [float(n)]; [None] beyond the
                                             float range: OverflowError *)
  str_of_int : Z -> string;               (* [str(n)] *)
  str_of_float : float -> string;         (* [str(x)] *)
  dict_of_iterable : value -> option dict (* [dict(v)], [v] not a dict *)
}.

End Py.
Export Py.

Declare Scope py_scope.
Notation "x <- c ;; k" := (bind c (fun x => k))
  (at level 61, c at next level, right associativity) : py_scope.
Open Scope py_scope.

(** ** The file system

    What [path.exists()], [path.is_file()] and
    [json.loads(path.read_text(encoding=...))] observe of a path.  A regular
    file is given by what reading it under an encoding and parsing the text
    yields: a JSON object (the file format of the configuration files) or the
    exception of [read_text] or [json.loads].  A text that parses to another
    JSON value is not represented; [dict.update] would read it as a sequence
    of pairs, or raise. *)

Inductive fs_entry :=
| Absent                                         (* exists() is False *)
| NotRegular                                     (* exists(), not is_file() *)
| File (read_json : string -> result dict).      (* exists() and is_file() *)

Definition filesystem := Path -> fs_entry.

(** ** pydantic (v1): fields, validation, [BaseSettings] *)

Module Pydantic.

(** The annotations [settings.py] gives its fields. *)
Inductive annotation :=
| TStr                         (* str *)
| TInt                         (* int *)
| TFloat                       (* float *)
| TPath                        (* Path *)
| TList (item : annotation)    (* list[item] *)
| TDictStrAny.                 (* dict[str, Any] *)

(** A field of a model: [default = None] is a required field, declared
    [Field(...)] or by a bare annotation. *)
Record field := {
  name : string;
  outer_type : annotation;
  default : option value
}.

(** The attributes of [cls.__config__] that [settings.py] declares. *)
Record Config := {
  json_config_path : value;
  env_file_encoding : string
}.

(** [utils.is_valid_field]: the annotated names the metaclass makes fields
    of; the others become private attributes or are left alone. *)
Definition is_valid_field (name : string) : bool :=
  if negb (String.prefix "_" name) then true else String.eqb "__root__" name.

(** A settings class as a source sees it through [settings]. *)
Record model_class := {
  class_name : string;          (* __name__ *)
  fields : list field;          (* __fields__, in declaration order *)
  config : Config;              (* __config__ *)
  fields_valid :                (* ModelMetaclass.__new__ *)
    forallb (fun f => is_valid_field (name f)) fields = true
}.

(** [SettingsSourceCallable]: called with the settings object, a source reads
    the world and returns a mapping or raises. *)
Definition source := model_class -> filesystem -> result dict.

Record InitSettingsSource := { init_kwargs : dict }.

(** [InitSettingsSource.__call__]. *)
Definition InitSettingsSource_call (self : InitSettingsSource) : source :=
  fun _ _ => Ok (init_kwargs self).

(** The hook [Config.customise_sources], a classmethod of the config class. *)
Definition customise_hook :=
  Config -> InitSettingsSource -> source -> source -> result (list source).

Record settings_class := {
  model : model_class;
  customise_sources : customise_hook
}.

(** An instance: [__class__.__name__] and [__dict__]. *)
Record object := {
  obj_class : string;
  obj_dict : dict
}.

(** *** utils.deep_update *)

Fixpoint deep_update_value (old new : value) {struct new} : value :=
  match old, new with
  | VDict mapping, VDict updating_mapping =>
      VDict
        ((fix items (updated_mapping : dict) (u : list (string * value)) : dict :=
            match u with
            | [] => updated_mapping
            | (k, v) :: u' =>
                items
                  (dict_set k
                     (match dict_get k updated_mapping with
                      | Some o => deep_update_value o v
                      | None => v
                      end) updated_mapping) u'
            end) mapping updating_mapping)
  | _, _ => new
  end.

(** One updating mapping: the inner loop of [deep_update]. *)
Fixpoint deep_update1 (updated_mapping updating_mapping : dict) : dict :=
  match updating_mapping with
  | [] => updated_mapping
  | (k, v) :: u' =>
      deep_update1
        (dict_set k
           (match dict_get k updated_mapping with
            | Some o => deep_update_value o v
            | None => v
            end) updated_mapping) u'
  end.

Definition deep_update (mapping : dict) (updating_mappings : list dict) : dict :=
  fold_left deep_update1 updating_mappings mapping.

(** *** Validators *)

Section Validation.

Variable rt : builtins.

Definition str_validator (v : value) : option string :=
  match v with
  | VStr s => Some s
  | VInt z => Some (str_of_int rt z)
  | VBool true => Some "True"
  | VBool false => Some "False"
  | VFloat f => Some (str_of_float rt f)
  | _ => None
  end.

Definition int_validator (v : value) : option Z :=
  match v with
  | VInt z => Some z
  | VBool true => Some 1%Z
  | VBool false => Some 0%Z
  | VFloat f => int_of_float rt f
  | VStr s => int_of_str rt s
  | _ => None
  end.

(** [float_validator] returns [v] when it is a float and [float(v)]
    otherwise; it turns the TypeError and the ValueError of [float(v)] into
    a FloatError, and lets its OverflowError through. *)
Inductive float_conversion :=
| Converted (f : float)
| NotConvertible          (* TypeError or ValueError: FloatError *)
| Overflows.              (* OverflowError, not caught *)

Definition float_validator (v : value) : float_conversion :=
  match v with
  | VFloat f => Converted f
  | VInt z =>
      match float_of_int rt z with
      | Some f => Converted f
      | None => Overflows
      end
  | VBool true => Converted 1%float
  | VBool false => Converted 0%float
  | VStr s =>
      match float_of_str rt s with
      | Some f => Converted f
      | None => NotConvertible
      end
  | _ => NotConvertible
  end.

Definition path_validator (v : value) : option Path :=
  match v with
  | VPath p => Some p
  | VStr s => Some (path_of_str rt s)
  | _ => None
  end.

Definition dict_validator (v : value) : option dict :=
  match v with
  | VDict d => Some d
  | _ => dict_of_iterable rt v
  end.

Definition validated := (value + list error_wrapper)%type.

(** The loop of [_validate_sequence_like]: results and errors, item by item. *)
Fixpoint validate_items (validate_item : list loc_item -> value -> validated)
    (loc : list loc_item) (i : nat) (l : list value)
    : list value * list error_wrapper :=
  match l with
  | [] => ([], [])
  | v :: l' =>
      let '(result, errors) := validate_items validate_item loc (S i) l' in
      match validate_item (loc ++ [LIndex i])%list v with
      | inl r => (r :: result, errors)
      | inr ee => (result, (ee ++ errors)%list)
      end
  end.

(** [ModelField.validate]: [None] is refused (no field here allows it), then
    the validators of the annotation run. *)
Fixpoint validate (t : annotation) (loc : list loc_item) (v : value) : validated :=
  match v with
  | VNone => inr [(loc, NoneIsNotAllowedError)]
  | _ =>
      match t with
      | TStr =>
          match str_validator v with
          | Some s => inl (VStr s)
          | None => inr [(loc, StrError)]
          end
      | TInt =>
          match int_validator v with
          | Some z => inl (VInt z)
          | None => inr [(loc, IntegerError)]
          end
      | TFloat =>
          match float_validator v with
          | Converted f => inl (VFloat f)
          | NotConvertible => inr [(loc, FloatError)]
          | Overflows => inr [(loc, Escaped_OverflowError)]
          end
      | TPath =>
          match path_validator v with
          | Some p => inl (VPath p)
          | None => inr [(loc, PathError)]
          end
      | TList item =>
          match v with
          | VList l =>
              match validate_items (validate item) loc 0 l with
              | (result, []) => inl (VList result)
              | (_, errors) => inr errors
              end
          | _ => inr [(loc, ListError)]
          end
      | TDictStrAny =>
          match dict_validator v with
          | Some d => inl (VDict d)
          | None => inr [(loc, DictError)]
          end
      end
  end.

(** *** main.validate_model

    with the settings of [BaseSettings.Config] that [JsonConfig] leaves alone:
    [validate_all = True] (defaults are validated too) and
    [extra = Extra.forbid]. *)

Record validation_state := {
  values : dict;
  errors : list error_wrapper;
  names_used : list string
}.

Definition validate_field (input_data : dict) (st : validation_state)
    (f : field) : validation_state :=
  let run (value : value) (used : list string) :=
    match validate (outer_type f) [LField (name f)] value with
    | inl v_ =>
        {| values := dict_set (name f) v_ (values st);
           errors := errors st; names_used := used |}
    | inr errors_ =>
        {| values := values st;
           errors := (errors st ++ errors_)%list; names_used := used |}
    end in
  match dict_get (name f) input_data with
  | None =>
      match default f with
      | None =>
          {| values := values st;
             errors := (errors st ++ [([LField (name f)], MissingError)])%list;
             names_used := names_used st |}
      | Some value => run value (names_used st)
      end
  | Some value => run value (names_used st ++ [name f])%list
  end.

Fixpoint insert_sorted (k : string) (l : list string) : list string :=
  match l with
  | [] => [k]
  | k' :: l' => if String.leb k k' then k :: l else k' :: insert_sorted k l'
  end.

(** [sorted(extra)]. *)
Definition sorted (l : list string) : list string :=
  fold_right insert_sorted [] l.

Definition mem (k : string) (l : list string) : bool :=
  existsb (String.eqb k) l.

(** [input_data.keys() - names_used]. *)
Definition extra_keys (input_data : dict) (used : list string) : list string :=
  filter (fun k => negb (mem k used)) (keys input_data).

Definition validate_model (cls : model_class) (input_data : dict)
    : dict * list error_wrapper :=
  let st :=
    fold_left (validate_field input_data) (fields cls)
      {| values := []; errors := []; names_used := [] |} in
  let extra := extra_keys input_data (names_used st) in
  (values st,
   (errors st ++ map (fun f => ([LField f], ExtraError)) (sorted extra))%list).

(** Whether an exception escaped the validators. *)
Definition escapes (errors : list error_wrapper) : bool :=
  existsb (fun e => match snd e with
                    | Escaped_OverflowError => true
                    | _ => false
                    end) errors.

(** [BaseModel.__init__], called with the keyword arguments [data].

    The method names its first parameter [__pydantic_self__], so Python
    refuses that name as a keyword before the body runs.  In the body, an
    exception that escapes the validators leaves [validate_model] and the
    method at once.  Validation has no effect but its result, so the run is
    followed to its end with the exception marked where it was raised, and
    the mark is turned back into the exception here. *)
Definition BaseModel_init (cls : model_class) (data : dict) : result object :=
  if mem "__pydantic_self__" (keys data) then
    Raise (TypeError
      "__init__() got multiple values for argument '__pydantic_self__'")
  else
    match validate_model cls data with
    | (values, []) => Ok {| obj_class := class_name cls; obj_dict := values |}
    | (_, validation_error) =>
        if escapes validation_error then Raise OverflowError
        else Raise (ValidationError validation_error)
    end.

End Validation.

(** *** env_settings.BaseSettings *)

(** [[source(self) for source in sources]]: in order, the first exception
    ends the comprehension. *)
Fixpoint call_sources (sources : list source) (self : model_class)
    (fs : filesystem) : result (list dict) :=
  match sources with
  | [] => Ok []
  | source :: rest =>
      d <- source self fs ;;
      ds <- call_sources rest self fs ;;
      Ok (d :: ds)
  end.

(** [BaseSettings._build_values].  The environment and secrets sources
    are built from the process before the hook is called; they are taken
    as given. *)
Definition BaseSettings_build_values (cls : settings_class) (init_kwargs : dict)
    (env_settings file_secret_settings : source) (fs : filesystem)
    : result dict :=
  let init_settings := {| init_kwargs := init_kwargs |} in
  sources <- customise_sources cls (config (model cls))
               init_settings env_settings file_secret_settings ;;
  ds <- call_sources sources (model cls) fs ;;
  match rev ds with
  | [] => Ok []
  | mapping :: updating_mappings => Ok (deep_update mapping updating_mappings)
  end.

(** [BaseSettings.__init__]; [values] is the dictionary its double-star
    parameter collects.  Python binds the keywords [_env_file],
    [_env_file_encoding], [_env_nested_delimiter] and [_secrets_dir] to
    parameters of their own, which configure the environment and the secrets
    sources (given here as [env_settings] and [file_secret_settings]), and it
    refuses [__pydantic_self__]; so [values] holds none of these names.  The
    merged mapping is passed on as keyword arguments. *)
Definition BaseSettings_init (rt : builtins) (cls : settings_class)
    (values : dict) (env_settings file_secret_settings : source)
    (fs : filesystem) : result object :=
  data <- BaseSettings_build_values cls values
            env_settings file_secret_settings fs ;;
  BaseModel_init rt (model cls) data.

(** The hook of [BaseSettings.Config] itself, which [JsonConfig] overrides. *)
Definition default_customise_sources : customise_hook :=
  fun _ init_settings env_settings file_secret_settings =>
    Ok [InitSettingsSource_call init_settings; env_settings;
        file_secret_settings].

End Pydantic.
Export Pydantic.

(** ** functools.lru_cache, bounded

    The wrapper keeps its entries from the most recently used to the least,
    and counts hits and misses ([cache_info()]).  The wrapped function runs on
    a state of its own, here the objects it allocates. *)

Module Functools.

Section LruCache.

Variables K V S : Type.
Variable key_eqb : K -> K -> bool.   (* equality of the keys of make_key *)
Variable maxsize : nat.

Record cache := {
  entries : list (K * V);
  hits : nat;
  misses : nat
}.

Definition empty : cache := {| entries := []; hits := 0; misses := 0 |}.

Fixpoint cache_get (key : K) (l : list (K * V)) : option V :=
  match l with
  | [] => None
  | (k, v) :: l' => if key_eqb key k then Some v else cache_get key l'
  end.

Fixpoint unlink (key : K) (l : list (K * V)) : list (K * V) :=
  match l with
  | [] => []
  | (k, v) :: l' => if key_eqb key k then l' else (k, v) :: unlink key l'
  end.

(** The wrapper: a hit moves the entry to the front; a miss calls the
    function, and a result (not an exception) is stored at the front, after
    the oldest entry has been dropped from a full cache. *)
Definition wrapper (user_function : K -> S -> result V * S)
    (key : K) (c : cache) (s : S) : result V * cache * S :=
  match cache_get key (entries c) with
  | Some hit =>
      (Ok hit,
       {| entries := (key, hit) :: unlink key (entries c);
          hits := hits c + 1; misses := misses c |},
       s)
  | None =>
      let '(r, s') := user_function key s in
      match r with
      | Raise e =>
          (Raise e,
           {| entries := entries c; hits := hits c; misses := misses c + 1 |},
           s')
      | Ok made =>
          let full := Nat.leb maxsize (length (entries c)) in
          let kept := if full then removelast (entries c) else entries c in
          (Ok made,
           {| entries := (key, made) :: kept;
              hits := hits c; misses := misses c + 1 |},
           s')
      end
  end.

End LruCache.

Arguments entries {K V} c.
Arguments hits {K V} c.
Arguments misses {K V} c.
Arguments empty {K V}.
Arguments cache_get {K V} key_eqb key l.
Arguments unlink {K V} key_eqb key l.
Arguments wrapper {K V S} key_eqb maxsize user_function key c s.

End Functools.

(** ** settings.py, lines 22-53: [JsonSettingsSource] *)

Module JsonSettingsSource.

Section Source.

Variable rt : builtins.

(** [Path(x)]: a [Path] is kept, a [str] is parsed, anything else is a
    [TypeError], whose message names the type of [x]. *)
Definition Path_new (x : value) : result Path :=
  match x with
  | VPath p => Ok p
  | VStr s => Ok (path_of_str rt s)
  | _ => Raise (TypeError (path_type_error rt x))
  end.

Fixpoint Path_new_all (l : list value) : result (list Path) :=
  match l with
  | [] => Ok []
  | x :: l' =>
      p <- Path_new x ;;
      ps <- Path_new_all l' ;;
      Ok (p :: ps)
  end.

(** [__init__] (lines 25-32): the attribute [self.json_config_path]. *)
Definition init (json_config_path : value) : result (list Path) :=
  match json_config_path with
  | VList l => Path_new_all l
  | VNone => Ok []
  | x => p <- Path_new x ;; Ok [p]
  end.

End Source.

(** The message of line 47. *)
Definition not_found_msg (classname : string) (idx : nat) (path : Path) : string :=
  classname ++ ": config #" ++ str_of_nat (idx + 1) ++ " at " ++ path_str path
    ++ " not found or not a file".

(** The loop of lines 41-47, from index [idx] on, over the paths left. *)
Fixpoint load (fs : filesystem) (classname encoding : string)
    (idx : nat) (paths : list Path) (merged_config : dict) : result dict :=
  match paths with
  | [] => Ok merged_config
  | path :: rest =>
      match fs path with
      | File read_json =>
          loaded <- read_json encoding ;;
          load fs classname encoding (S idx) rest
            (dict_update merged_config loaded)
      | Absent | NotRegular =>
          Raise (FileNotFoundError (not_found_msg classname idx path))
      end
  end.

(** [__call__] (lines 34-50). *)
Definition call (json_config_path : list Path) : source :=
  fun settings fs =>
    let classname := class_name settings in
    let encoding := env_file_encoding (config settings) in
    load fs classname encoding 0 json_config_path [].

End JsonSettingsSource.

(** ** settings.py, lines 56-77: [JsonConfig] *)

Module JsonConfig.

(** The class attributes of lines 57-58.  The [Config] classes of the two
    settings classes only annotate [json_config_path], so they inherit
    them. *)
Definition attributes : Config :=
  {| json_config_path := VNone; env_file_encoding := "utf-8" |}.

(** [customise_sources] (lines 60-77).  The pop changes the dictionary the
    init source holds, so the init source returned is the one left after
    it. *)
Definition customise_sources (rt : builtins) : customise_hook :=
  fun cls init_settings env_settings file_secret_settings =>
    let '(json_config_path, kwargs) :=
      dict_pop "json_config_path" (json_config_path cls)
        (init_kwargs init_settings) in
    let init_settings := {| init_kwargs := kwargs |} in
    paths <- JsonSettingsSource.init rt json_config_path ;;
    let json_settings := JsonSettingsSource.call paths in
    Ok [InitSettingsSource_call init_settings; json_settings].

End JsonConfig.

(** ** settings.py, lines 80-114: the settings classes and their accessors *)

Section Settings.

Variable rt : builtins.

(** The value of [get_dir("config").joinpath("inference/default.json")],
    computed once when the module is loaded; [get_dir] lives in the package's
    [__init__]. *)
Variable default_config_path : Path.

Definition InferenceConfig : settings_class :=
  {| model :=
       {| class_name := "InferenceConfig";
          fields :=
            [ {| name := "unet_additional_kwargs"; outer_type := TDictStrAny;
                 default := None |};
              {| name := "noise_scheduler_kwargs"; outer_type := TDictStrAny;
                 default := None |} ];
          config := JsonConfig.attributes;
          fields_valid := eq_refl |};
     customise_sources := JsonConfig.customise_sources rt |}.

Definition ModelConfig : settings_class :=
  {| model :=
       {| class_name := "ModelConfig";
          fields :=
            [ {| name := "name"; outer_type := TStr; default := None |};
              {| name := "base"; outer_type := TStr; default := None |};
              {| name := "path"; outer_type := TPath; default := None |};
              {| name := "motion_module"; outer_type := TPath;
                 default := None |};
              {| name := "seed"; outer_type := TList TInt;
                 default := Some (VList []) |};
              {| name := "steps"; outer_type := TInt;
                 default := Some (VInt 25) |};
              {| name := "guidance_scale"; outer_type := TFloat;
                 default := Some (VFloat 7.5) |};
              {| name := "prompt"; outer_type := TList TStr;
                 default := Some (VList []) |};
              {| name := "n_prompt"; outer_type := TList TStr;
                 default := Some (VList []) |} ];
          config := JsonConfig.attributes;
          fields_valid := eq_refl |};
     customise_sources := JsonConfig.customise_sources rt |}.

(** What a call reads of the process: the files, and the environment and
    secrets sources pydantic builds from it. *)
Record world := {
  fs : filesystem;
  env_settings : source;
  file_secret_settings : source
}.

(** Objects are allocated in a heap and returned by reference, so that two
    results can be the same object or two equal ones. *)
Definition ref := nat.
Definition heap := list object.

(** [cls(json_config_path=config_path)], the body of both accessors. *)
Definition construct (cls : settings_class) (w : world) (config_path : Path)
    (h : heap) : result ref * heap :=
  match BaseSettings_init rt cls [("json_config_path", VPath config_path)]
          (env_settings w) (file_secret_settings w) (fs w) with
  | Ok settings => (Ok (length h), (h ++ [settings])%list)
  | Raise e => (Raise e, h)
  end.

(** The ways to call a function of the one parameter [config_path]: with
    nothing, positionally, by keyword.  [lru_cache] makes its key from the
    positional and the keyword arguments as they are passed. *)
Inductive call_args :=
| NoArgs
| Positional (config_path : Path)
| Keyword (config_path : Path).

Definition Path_eqb (p q : Path) : bool := String.eqb (path_str p) (path_str q).

Definition call_args_eqb (a b : call_args) : bool :=
  match a, b with
  | NoArgs, NoArgs => true
  | Positional p, Positional q => Path_eqb p q
  | Keyword p, Keyword q => Path_eqb p q
  | _, _ => false
  end.

(** Lines 89-93, undecorated. *)
Definition get_infer_config_body (w : world) (args : call_args) (h : heap)
    : result ref * heap :=
  match args with
  | NoArgs => construct InferenceConfig w default_config_path h
  | Positional config_path | Keyword config_path =>
      construct InferenceConfig w config_path h
  end.

(** Lines 112-114, undecorated. *)
Definition get_model_config_body (w : world) (args : call_args) (h : heap)
    : result ref * heap :=
  match args with
  | NoArgs =>
      (Raise (TypeError
         "get_model_config() missing 1 required positional argument: 'config_path'"),
       h)
  | Positional config_path | Keyword config_path =>
      construct ModelConfig w config_path h
  end.

(** The state of the module: the heap and the cache of each accessor. *)
Record state := {
  objects : heap;
  infer_cache : Functools.cache call_args ref;
  model_cache : Functools.cache call_args ref
}.

Definition initial_state : state :=
  {| objects := []; infer_cache := Functools.empty;
     model_cache := Functools.empty |}.

(** Line 88: [@lru_cache(maxsize=2)]. *)
Definition get_infer_config (w : world) (args : call_args) (s : state)
    : result ref * state :=
  let '(r, c, h) :=
    Functools.wrapper call_args_eqb 2 (get_infer_config_body w) args
      (infer_cache s) (objects s) in
  (r, {| objects := h; infer_cache := c; model_cache := model_cache s |}).

(** Line 111: [@lru_cache(maxsize=2)]. *)
Definition get_model_config (w : world) (args : call_args) (s : state)
    : result ref * state :=
  let '(r, c, h) :=
    Functools.wrapper call_args_eqb 2 (get_model_config_body w) args
      (model_cache s) (objects s) in
  (r, {| objects := h; infer_cache := infer_cache s; model_cache := c |}).

(** The two accessors, side by side. *)
Inductive accessor := Infer | Model.

Definition access (a : accessor) : world -> call_args -> state -> result ref * state :=
  match a with
  | Infer => get_infer_config
  | Model => get_model_config
  end.

Definition body (a : accessor) : world -> call_args -> heap -> result ref * heap :=
  match a with
  | Infer => get_infer_config_body
  | Model => get_model_config_body
  end.

Definition cache_of (a : accessor) (s : state) : Functools.cache call_args ref :=
  match a with
  | Infer => infer_cache s
  | Model => model_cache s
  end.

(** The path a call binds to [config_path], when it binds one. *)
Definition bound_path (a : accessor) (args : call_args) : option Path :=
  match args, a with
  | Positional p, _ | Keyword p, _ => Some p
  | NoArgs, Infer => Some default_config_path
  | NoArgs, Model => None
  end.

(** The states the module can be in: the initial one and those that calls of
    the accessors lead to. *)
Inductive reachable : state -> Prop :=
| reachable_initial : reachable initial_state
| reachable_access a w args s :
    reachable s -> reachable (snd (access a w args s)).

End Settings.

(** * Worked inputs *)


(** An interpreter for the worked inputs.  It agrees with CPython on the
    values the examples convert and is partial beyond them:
    - [Path(s)] keeps the text of [s]: separators and dots are not
      collapsed, as pathlib does;
    - the TypeError of [Path(x)] has the text of CPython before 3.12;
    - text is read as an int, and as a float, only when it is a plain
      decimal numeral: no blanks, underscores, fraction, exponent, inf or
      nan;
    - an int becomes the nearest float, ties to even, and none when that is
      beyond the float range;
    - a float is truncated to an int, an infinity or a nan to none;
    - a float is printed by its exact decimal expansion, which is what
      CPython prints when that has at most 16 digits;
    - only a list of [key, value] pairs with string keys is made a
      dictionary. *)
Definition example_int_of_float (x : float) : option Z :=
  match Prim2SF x with
  | S754_zero _ => Some 0%Z
  | S754_finite s m e =>
      let a := if (0 <=? e)%Z then (Zpos m * 2 ^ e)%Z
               else (Zpos m / 2 ^ (- e))%Z in
      Some (if s then (- a)%Z else a)
  | _ => None
  end.

Definition example_float_of_int (n : Z) : option float :=
  match binary_normalize prec emax n 0 false with
  | S754_infinity _ => None
  | x => Some (SF2Prim x)
  end.

(** The name [type(x).__name__] of the type of a value. *)
Definition type_name (x : value) : string :=
  match x with
  | VNone => "NoneType"
  | VBool _ => "bool"
  | VInt _ => "int"
  | VFloat _ => "float"
  | VStr _ => "str"
  | VPath _ => "PosixPath"
  | VList _ => "list"
  | VDict _ => "dict"
  end.

Definition example_str_of_int (n : Z) : string :=
  NilZero.string_of_int (Z.to_int n).

Fixpoint zeros (n : nat) : string :=
  match n with
  | O => ""
  | S n' => String "0" (zeros n')
  end.

(** The digits of a fraction without its trailing zeros; one digit at
    least is kept. *)
Fixpoint strip_zeros (frac : string) : string :=
  match frac with
  | EmptyString => ""
  | String c rest =>
      match strip_zeros rest with
      | EmptyString => if Ascii.eqb c "0" then "" else String c ""
      | kept => String c kept
      end
  end.

Definition example_str_of_float (x : float) : string :=
  match Prim2SF x with
  | S754_zero s => if s then "-0.0" else "0.0"
  | S754_infinity s => if s then "-inf" else "inf"
  | S754_nan => "nan"
  | S754_finite s m e =>
      let sign := if s then "-" else "" in
      if (0 <=? e)%Z then
        sign ++ example_str_of_int (Zpos m * 2 ^ e) ++ ".0"
      else
        let k := Z.to_nat (- e) in
        let digits := example_str_of_int (Zpos m * 5 ^ (- e)) in
        let padded := zeros (S k - String.length digits) ++ digits in
        let split := String.length padded - k in
        let frac := strip_zeros (substring split k padded) in
        sign ++ substring 0 split padded ++ "."
          ++ (if String.eqb frac "" then "0" else frac)
  end.

Fixpoint example_dict_of_pairs (items : list value) : option dict :=
  match items with
  | [] => Some []
  | VList [VStr k; v] :: rest =>
      option_map (fun d => dict_update [(k, v)] d) (example_dict_of_pairs rest)
  | _ => None
  end.

Definition example_builtins : builtins :=
  {| path_of_str := mkPath;
     path_type_error :=
       fun x => "expected str, bytes or os.PathLike object, not " ++ type_name x;
     int_of_str := fun s => option_map Z.of_int (NilZero.int_of_string s);
     int_of_float := example_int_of_float;
     float_of_str :=
       fun s => match NilZero.int_of_string s with
                | Some d => example_float_of_int (Z.of_int d)
                | None => None
                end;
     float_of_int := example_float_of_int;
     str_of_int := example_str_of_int;
     str_of_float := example_str_of_float;
     dict_of_iterable :=
       fun v => match v with
                | VList items => example_dict_of_pairs items
                | _ => None
                end |}.

Definition example_default_path : Path := mkPath "config/inference/default.json".

(** A directory with no file in it. *)
Definition empty_fs : filesystem := fun _ => Absent.

(** A file holding a JSON object, whatever the encoding asked for. *)
Definition json_file (d : dict) : fs_entry := File (fun _ => Ok d).

(** [fs] with [entry] at [path]. *)
Definition with_entry (path : string) (entry : fs_entry) (fs : filesystem)
    : filesystem :=
  fun p => if String.eqb (path_str p) path then entry else fs p.

(** The model config of the specification's example. *)
Definition example_model_json : dict :=
  [("name", VStr "x"); ("base", VStr "b"); ("path", VStr "m.ckpt");
   ("motion_module", VStr "mm.ckpt")].

Definition example_infer_json : dict :=
  [("unet_additional_kwargs", VDict [("b", VInt 2)]);
   ("noise_scheduler_kwargs", VDict [])].

Definition example_fs : filesystem :=
  with_entry "model.json" (json_file example_model_json)
    (with_entry "other.json" (json_file example_model_json)
       (with_entry "infer.json" (json_file example_infer_json)
          (with_entry "config/inference/default.json"
             (json_file example_infer_json) empty_fs))).

Definition silent_source : source := fun _ _ => Ok [].

Definition example_world : world :=
  {| fs := example_fs; env_settings := silent_source;
     file_secret_settings := silent_source |}.

(** [ModelConfig] as it would be under the hook of [BaseSettings.Config],
    without [JsonConfig]: for comparison. *)
Definition ModelConfig_default_sources (rt : builtins) : settings_class :=
  {| model := model (ModelConfig rt);
     customise_sources := default_customise_sources |}.

(** An environment that sets STEPS=30. *)
Definition steps_env : source := fun _ _ => Ok [("steps", VStr "30")].

(** [example_fs] with one more file, whose text is not JSON. *)
Definition broken_fs : filesystem :=
  with_entry "broken.json" (File (fun _ => Raise JSONDecodeError)) example_fs.

(** A model config that sets every field, two of them by values to coerce. *)
Definition full_model_json : dict :=
  [("name", VStr "y"); ("base", VStr "b2"); ("path", VStr "m2.ckpt");
   ("motion_module", VStr "mm2.ckpt"); ("seed", VList [VInt 1; VStr "2"]);
   ("steps", VStr "30"); ("guidance_scale", VInt 8);
   ("prompt", VList [VStr "a cat"]); ("n_prompt", VList [])].

(** A world with the full model config at full.json, and one without any
    file. *)
Definition full_world : world :=
  {| fs := with_entry "full.json" (json_file full_model_json) example_fs;
     env_settings := silent_source; file_secret_settings := silent_source |}.

Definition empty_world : world :=
  {| fs := empty_fs; env_settings := silent_source;
     file_secret_settings := silent_source |}.

(** Two files with keys in common, under different values. *)
Definition first_json : dict :=
  [("name", VStr "first"); ("steps", VInt 20);
   ("unet_additional_kwargs", VDict [("a", VInt 1)])].

Definition second_json : dict :=
  [("steps", VInt 30); ("unet_additional_kwargs", VDict [("b", VInt 2)]);
   ("base", VStr "b")].

Definition layered_fs : filesystem :=
  with_entry "first.json" (json_file first_json)
    (with_entry "second.json" (json_file second_json) example_fs).

(** The state after one more call of [get_model_config] in the example
    world. *)
Definition model_call (args : call_args) (s : state) : state :=
  snd (access example_builtins example_default_path Model example_world args s).

(** After model.json passed positionally, then by keyword, then other.json:
    the first entry is evicted. *)
Definition evicted_state : state :=
  model_call (Positional (mkPath "other.json"))
    (model_call (Keyword (mkPath "model.json"))
       (model_call (Positional (mkPath "model.json")) initial_state)).

(** The same with model.json passed positionally again before other.json:
    the entry of the keyword call is evicted. *)
Definition busy_state : state :=
  model_call (Positional (mkPath "other.json"))
    (model_call (Positional (mkPath "model.json"))
       (model_call (Keyword (mkPath "model.json"))
          (model_call (Positional (mkPath "model.json")) initial_state))).

(** A model config without motion_module whose path is a number, and one
    without path whose guidance_scale is an int no float can hold. *)
Definition bad_model_json : dict :=
  [("name", VStr "x"); ("base", VStr "b"); ("path", VInt 5)].

Definition huge_model_json : dict :=
  [("name", VStr "x"); ("base", VStr "b"); ("motion_module", VStr "mm.ckpt");
   ("guidance_scale", VInt (10 ^ 400))].

Definition faulty_fs : filesystem :=
  with_entry "bad.json" (json_file bad_model_json)
    (with_entry "huge.json" (json_file huge_model_json) example_fs).

(** * Vocabulary of the statements *)

(** [path] is a regular file whose text, read under [encoding], is the JSON
    object [d]. *)
Definition loads (fs : filesystem) (encoding : string) (path : Path) (d : dict)
    : Prop :=
  exists read_json, fs path = File read_json /\ read_json encoding = Ok d.

(** [path] does not exist or is not a regular file. *)
Definition missing (fs : filesystem) (path : Path) : Prop :=
  fs path = Absent \/ fs path = NotRegular.

(** The value [validate_model] validates for a field: the input's, or the
    default; none for a required field the input lacks. *)
Definition field_input (input_data : dict) (f : field) : option value :=
  match dict_get (name f) input_data with
  | Some v => Some v
  | None => default f
  end.

(** The mapping the JSON source of a [JsonConfig] class returns for the init
    arguments [kw]: the source is built from the popped [json_config_path], or
    from the class attribute, and called. *)
Definition json_source_mapping (rt : builtins) (cls : settings_class)
    (kw : dict) (fs : filesystem) : result dict :=
  let '(json_config_path, _) :=
    dict_pop "json_config_path" (json_config_path (config (model cls))) kw in
  paths <- JsonSettingsSource.init rt json_config_path ;;
  JsonSettingsSource.call paths (model cls) fs.

(** The class an accessor constructs. *)
Definition class_of (rt : builtins) (a : accessor) : settings_class :=
  match a with
  | Infer => InferenceConfig rt
  | Model => ModelConfig rt
  end.

(** The value of [k] in the last of [contents] that has the key. *)
Definition last_value (k : string) (contents : list dict) : option value :=
  fold_left
    (fun found d => match dict_get k d with Some v => Some v | None => found end)
    contents None.

(** Two entries that the loader cannot tell apart under [encoding]: both are
    no regular file, or both are files that read and parse to the same. *)
Definition same_view (encoding : string) (e e' : fs_entry) : Prop :=
  match e, e' with
  | File r, File r' => r encoding = r' encoding
  | File _, _ | _, File _ => False
  | _, _ => True
  end.

(** What [Path(x)] accepts: a str or a Path. *)
Definition is_pathlike (x : value) : bool :=
  match x with
  | VStr _ | VPath _ => true
  | _ => false
  end.

(** The file a str or a Path names. *)
Definition names_file (rt : builtins) (x : value) (p : Path) : Prop :=
  x = VPath p \/ exists s, x = VStr s /\ p = path_of_str rt s.

(** The files a [json_config_path] value names: none for None, one for a str
    or a Path, and for a list of them one per item, in order. *)
Definition names_files (rt : builtins) (v : value) (paths : list Path) : Prop :=
  match v with
  | VNone => paths = []
  | VList l => Forall2 (names_file rt) l paths
  | x => exists p, names_file rt x p /\ paths = [p]
  end.

(** The [json_config_path] of a construction: the init argument, or the
    class attribute when there is none. *)
Definition json_config_path_of (cls : settings_class) (kw : dict) : value :=
  match dict_get "json_config_path" kw with
  | Some v => v
  | None => json_config_path (config (model cls))
  end.

(** The value a field of a [JsonConfig] class is validated from: the init
    argument (deep-updated over the file's value when the file has the key
    too), else the file's value, else the default. *)
Definition source_value (kw loaded : dict) (f : field) : option value :=
  match dict_get (name f) kw, dict_get (name f) loaded with
  | Some vi, Some vj => Some (deep_update_value vj vi)
  | Some vi, None => Some vi
  | None, Some vj => Some vj
  | None, None => default f
  end.

(** A sequence of calls of the accessors, and the state it leads to. *)
Definition call := (accessor * world * call_args)%type.

Definition run_calls (rt : builtins) (default_config_path : Path)
    (calls : list call) (s : state) : state :=
  fold_left
    (fun s c => let '(a, w, args) := c in
                snd (access rt default_config_path a w args s))
    calls s.

(** An object of the class of an accessor, with the declared fields. *)
Definition instance_of (rt : builtins) (a : accessor) (obj : object) : Prop :=
  obj_class obj = class_name (model (class_of rt a)) /\
  keys (obj_dict obj) = map name (fields (model (class_of rt a))).

(** * Properties *)

(** ** Dictionaries *)

Lemma dict_get_set_same k v d : dict_get k (dict_set k v d) = Some v.
Proof.
  induction d as [|[k' v'] d IH]; simpl.
  - now rewrite String.eqb_refl.
  - destruct (String.eqb k k') eqn:E; simpl; rewrite E; auto.
Qed.

Lemma dict_get_set_other k k' v d :
  k <> k' -> dict_get k (dict_set k' v d) = dict_get k d.
Proof.
  intros Hne. induction d as [|[k0 v0] d IH]; simpl.
  - destruct (String.eqb_spec k k'); congruence.
  - destruct (String.eqb_spec k' k0) as [->|H0]; simpl.
    + destruct (String.eqb_spec k k0); congruence.
    + destruct (String.eqb_spec k k0); auto.
Qed.

Lemma dict_get_None_iff k d : dict_get k d = None <-> ~ In k (keys d).
Proof.
  induction d as [|[k' v'] d IH]; simpl.
  - tauto.
  - destruct (String.eqb_spec k k') as [->|Hne].
    + split; [discriminate | intros H; exfalso; apply H; auto].
    + rewrite IH. split; intros H; [intros [E|I]; [congruence | tauto] | tauto].
Qed.

Lemma dict_get_Some_In k v d : dict_get k d = Some v -> In k (keys d).
Proof.
  intros H. destruct (in_dec string_dec k (keys d)) as [I|N]; auto.
  apply dict_get_None_iff in N. congruence.
Qed.

Lemma keys_dict_set k v d :
  keys (dict_set k v d) = if mem k (keys d) then keys d else (keys d ++ [k])%list.
Proof.
  induction d as [|[k' v'] d IH]; simpl; auto.
  destruct (String.eqb k k') eqn:E; simpl; auto.
  rewrite IH. destruct (mem k (keys d)); auto.
Qed.

Lemma mem_In k l : mem k l = true <-> In k l.
Proof.
  unfold mem. rewrite existsb_exists. split.
  - intros [x [I E]]. apply String.eqb_eq in E. now subst.
  - intros I. exists k. split; auto. apply String.eqb_refl.
Qed.

Lemma dict_set_wf k v d : dict_wf d -> dict_wf (dict_set k v d).
Proof.
  unfold dict_wf. intros W. rewrite keys_dict_set.
  destruct (mem k (keys d)) eqn:M; auto.
  apply NoDup_app; auto.
  - constructor; [simpl; tauto | constructor].
  - intros x I [E|[]]. subst x. apply mem_In in I. congruence.
Qed.

Lemma dict_update_wf d other : dict_wf d -> dict_wf (dict_update d other).
Proof.
  unfold dict_update. revert d.
  induction other as [|[k v] o IH]; simpl; intros d W; auto.
  apply IH. now apply dict_set_wf.
Qed.

(** Looking a key up after [d.update(other)]. *)
Lemma dict_get_update k d other :
  dict_wf other ->
  dict_get k (dict_update d other) =
    match dict_get k other with
    | Some v => Some v
    | None => dict_get k d
    end.
Proof.
  unfold dict_update, dict_wf. revert d.
  induction other as [|[k1 v1] o IH]; simpl; intros d W; auto.
  inversion W as [|? ? Hnin Hnd]; subst.
  rewrite IH by assumption.
  destruct (String.eqb_spec k k1) as [->|Hne].
  - apply dict_get_None_iff in Hnin. rewrite Hnin. apply dict_get_set_same.
  - destruct (dict_get k o); auto. now apply dict_get_set_other.
Qed.

Lemma dict_set_fresh k v d :
  ~ In k (keys d) -> dict_set k v d = (d ++ [(k, v)])%list.
Proof.
  induction d as [|[k' v'] d IH]; simpl; intros H; [reflexivity|].
  destruct (String.eqb_spec k k') as [->|Hne]; [tauto|].
  rewrite IH by tauto. reflexivity.
Qed.

(** Updating by a dictionary with fresh keys appends its items. *)
Lemma dict_update_fresh d other :
  NoDup (keys d ++ keys other) -> dict_update d other = (d ++ other)%list.
Proof.
  unfold dict_update. revert d.
  induction other as [|[k v] o IH]; intros d ND; simpl.
  - now rewrite app_nil_r.
  - rewrite dict_set_fresh.
    + rewrite IH.
      * now rewrite <- app_assoc.
      * unfold keys in *. rewrite map_app. simpl. rewrite <- app_assoc. exact ND.
    + apply NoDup_remove_2 in ND. intros I. apply ND. apply in_or_app. now left.
Qed.

Lemma dict_update_empty d : dict_wf d -> dict_update [] d = d.
Proof. intros W. now rewrite dict_update_fresh. Qed.

(** Distinct literal keys. *)
Ltac distinct_strings :=
  repeat (constructor; [simpl; intuition discriminate|]); constructor.

(** ** The JSON source *)

Section JsonSource.

Variables (fs : filesystem) (settings : model_class).

Let classname := class_name settings.
Let encoding := env_file_encoding (config settings).

(** Files that load are merged one after the other, and the loop goes on. *)
Lemma load_loaded_prefix pre contents rest idx merged :
  Forall2 (loads fs encoding) pre contents ->
  JsonSettingsSource.load fs classname encoding idx (pre ++ rest) merged =
  JsonSettingsSource.load fs classname encoding (idx + length pre) rest
    (fold_left dict_update contents merged).
Proof.
  intros H. revert idx merged.
  induction H as [|p d pre contents [r [Hf Hr]] _ IH]; intros idx merged; simpl.
  - now rewrite Nat.add_0_r.
  - rewrite Hf, Hr. simpl. rewrite IH. f_equal. lia.
Qed.

(** A path that is missing makes the loop raise, whatever comes before. *)
Lemma load_missing_raises paths p idx merged :
  In p paths -> missing fs p ->
  exists e, JsonSettingsSource.load fs classname encoding idx paths merged = Raise e.
Proof.
  intros I M. revert idx merged.
  induction paths as [|q paths IH]; intros idx merged; [destruct I|].
  simpl. destruct (fs q) as [| |r] eqn:Eq; try (eexists; reflexivity).
  destruct I as [->|I].
  - destruct M; congruence.
  - destruct (r encoding); simpl; [apply IH; assumption | eexists; reflexivity].
Qed.

End JsonSource.

(** C1. Given two existing JSON files [A] and [B] in this order, the loader
    returns a mapping in which every top-level key of [B], so every key
    present in both files, has [B]'s value, the value itself and not a merge
    with [A]'s; the other keys have [A]'s value. *)
Theorem later_path_overrides (fs : filesystem) (settings : model_class)
    (A B : Path) (a b : dict) :
  loads fs (env_file_encoding (config settings)) A a ->
  loads fs (env_file_encoding (config settings)) B b ->
  dict_wf a ->
  dict_wf b ->
  exists merged,
    JsonSettingsSource.call [A; B] settings fs = Ok merged /\
    forall k,
      dict_get k merged =
        match dict_get k b with
        | Some vb => Some vb
        | None => dict_get k a
        end.
Proof.
  intros HA HB Wa Wb.
  exists (dict_update (dict_update [] a) b). split.
  - unfold JsonSettingsSource.call.
    change [A; B] with ([A; B] ++ [])%list.
    rewrite (load_loaded_prefix fs settings [A; B] [a; b]).
    + reflexivity.
    + repeat constructor; assumption.
  - intros k. rewrite dict_get_update by assumption.
    now rewrite (dict_update_empty a Wa).
Qed.

Lemma later_path_overrides_witness :
  dict_get "steps" first_json = Some (VInt 20) /\
  dict_get "steps" second_json = Some (VInt 30) /\
  exists merged,
    JsonSettingsSource.call [mkPath "first.json"; mkPath "second.json"]
      (model (ModelConfig example_builtins)) layered_fs = Ok merged /\
    dict_get "steps" merged = Some (VInt 30) /\
    dict_get "unet_additional_kwargs" merged = Some (VDict [("b", VInt 2)]) /\
    dict_get "name" merged = Some (VStr "first") /\
    forall k,
      dict_get k merged =
        match dict_get k second_json with
        | Some vb => Some vb
        | None => dict_get k first_json
        end.
Proof.
  destruct (later_path_overrides layered_fs
              (model (ModelConfig example_builtins))
              (mkPath "first.json") (mkPath "second.json")
              first_json second_json) as [merged [Hcall Hkeys]].
  - eexists. split; reflexivity.
  - eexists. split; reflexivity.
  - unfold dict_wf. simpl. distinct_strings.
  - unfold dict_wf. simpl. distinct_strings.
  - split; [reflexivity|]. split; [reflexivity|].
    exists merged. split; [exact Hcall|].
    split; [exact (Hkeys "steps")|].
    split; [exact (Hkeys "unet_additional_kwargs")|].
    split; [exact (Hkeys "name") | exact Hkeys].
Defined.

(** C2, as the loop has it. If a path of the list does not exist or is not a
    regular file, the loader returns no mapping: it raises. If moreover every
    path before it is a file that loads, the exception is the
    FileNotFoundError whose message names that path and its 1-based
    position. *)
Theorem first_missing_path_reported (fs : filesystem) (settings : model_class)
    (pre post : list Path) (p : Path) :
  missing fs p ->
  (exists e, JsonSettingsSource.call (pre ++ p :: post) settings fs = Raise e) /\
  (forall contents,
     Forall2 (loads fs (env_file_encoding (config settings))) pre contents ->
     JsonSettingsSource.call (pre ++ p :: post) settings fs =
     Raise (FileNotFoundError
              (class_name settings ++ ": config #" ++ str_of_nat (length pre + 1)
                 ++ " at " ++ path_str p ++ " not found or not a file"))).
Proof.
  intros M. split.
  - apply load_missing_raises with (p := p); [apply in_elt | assumption].
  - intros contents H. unfold JsonSettingsSource.call.
    rewrite (load_loaded_prefix fs settings pre contents) by assumption.
    simpl. destruct M as [-> | ->]; reflexivity.
Qed.

Lemma first_missing_path_reported_witness :
  (exists e,
     JsonSettingsSource.call [mkPath "model.json"; mkPath "gone.json"]
       (model (ModelConfig example_builtins)) example_fs = Raise e) /\
  JsonSettingsSource.call [mkPath "model.json"; mkPath "gone.json"]
    (model (ModelConfig example_builtins)) example_fs =
  Raise (FileNotFoundError
           "ModelConfig: config #2 at gone.json not found or not a file").
Proof.
  destruct (first_missing_path_reported example_fs
              (model (ModelConfig example_builtins))
              [mkPath "model.json"] [] (mkPath "gone.json")) as [H1 H2].
  - left. reflexivity.
  - split; [exact H1|].
    apply (H2 [example_model_json]).
    repeat constructor. eexists. split; reflexivity.
Defined.

(** C2 as stated fails: of two missing paths the second is missing too, yet
    the error names the first and position 1, not the second and position
    2. *)
Lemma missing_path_not_always_reported :
  nth_error [mkPath "a.json"; mkPath "b.json"] 1 = Some (mkPath "b.json") /\
  missing empty_fs (mkPath "b.json") /\
  JsonSettingsSource.call [mkPath "a.json"; mkPath "b.json"]
    (model (ModelConfig example_builtins)) empty_fs =
  Raise (FileNotFoundError
           "ModelConfig: config #1 at a.json not found or not a file") /\
  JsonSettingsSource.call [mkPath "a.json"; mkPath "b.json"]
    (model (ModelConfig example_builtins)) empty_fs <>
  Raise (FileNotFoundError
           "ModelConfig: config #2 at b.json not found or not a file").
Proof.
  repeat split.
  - now left.
  - vm_compute. discriminate.
Qed.

(** C10. A JSON source built from the empty list or from None holds no path,
    and called, it returns the empty mapping on every file system: it raises
    nothing and depends on no file. *)
Theorem no_paths_empty_mapping (rt : builtins) (settings : model_class)
    (fs : filesystem) :
  JsonSettingsSource.init rt (VList []) = Ok [] /\
  JsonSettingsSource.init rt VNone = Ok [] /\
  JsonSettingsSource.call [] settings fs = Ok [].
Proof. repeat split. Qed.

Lemma dict_get_del_same k d : dict_wf d -> dict_get k (dict_del k d) = None.
Proof.
  unfold dict_wf. induction d as [|[k' v'] d IH]; simpl; intros W; auto.
  inversion W as [|? ? Hnin Hnd]; subst.
  destruct (String.eqb_spec k k') as [->|Hne].
  - now apply dict_get_None_iff.
  - simpl. destruct (String.eqb_spec k k'); [congruence | auto].
Qed.

Lemma dict_get_del_other k k' d :
  k <> k' -> dict_get k (dict_del k' d) = dict_get k d.
Proof.
  intros Hne. induction d as [|[k0 v0] d IH]; simpl; auto.
  destruct (String.eqb_spec k' k0) as [->|H0]; simpl.
  - destruct (String.eqb_spec k k0); congruence.
  - destruct (String.eqb_spec k k0); auto.
Qed.

Lemma keys_dict_del_incl k d : incl (keys (dict_del k d)) (keys d).
Proof.
  induction d as [|[k' v'] d IH]; simpl; [apply incl_refl|].
  destruct (String.eqb k k'); simpl.
  - apply incl_tl, incl_refl.
  - intros x [E|I]; [left; assumption | right; apply IH; assumption].
Qed.

Lemma dict_del_wf k d : dict_wf d -> dict_wf (dict_del k d).
Proof.
  unfold dict_wf. induction d as [|[k' v'] d IH]; simpl; intros W; auto.
  inversion W as [|? ? Hnin Hnd]; subst.
  destruct (String.eqb k k'); simpl; auto.
  constructor; auto. intros I. apply Hnin. now apply (keys_dict_del_incl k d).
Qed.

(** What [d.pop(k, default)] returns and leaves. *)
Lemma dict_pop_spec k default d v d' :
  dict_wf d ->
  dict_pop k default d = (v, d') ->
  v = match dict_get k d with Some x => x | None => default end /\
  dict_wf d' /\
  dict_get k d' = None /\
  (forall k', k' <> k -> dict_get k' d' = dict_get k' d).
Proof.
  unfold dict_pop. intros W H.
  destruct (dict_get k d) eqn:G; inversion H; subst; clear H.
  - repeat split; auto using dict_del_wf, dict_get_del_same.
    intros. now apply dict_get_del_other.
  - repeat split; auto.
Qed.

(** ** deep_update *)

Lemma deep_update_value_dicts a b :
  deep_update_value (VDict a) (VDict b) = VDict (deep_update1 a b).
Proof. reflexivity. Qed.

(** Unless both values are dictionaries, the new value replaces the old. *)
Lemma deep_update_value_replaces old new :
  (forall d, old <> VDict d) \/ (forall d, new <> VDict d) ->
  deep_update_value old new = new.
Proof.
  intros [H|H]; destruct old, new; try reflexivity;
    exfalso; eapply H; reflexivity.
Qed.

Lemma dict_get_deep_update1 k m u :
  dict_wf u ->
  dict_get k (deep_update1 m u) =
    match dict_get k u with
    | Some v =>
        Some (match dict_get k m with
              | Some o => deep_update_value o v
              | None => v
              end)
    | None => dict_get k m
    end.
Proof.
  unfold dict_wf. revert m.
  induction u as [|[k1 v1] u IH]; intros m W; [reflexivity|].
  inversion W as [|? ? Hnin Hnd]; subst.
  cbn [deep_update1 dict_get]. rewrite IH by assumption.
  destruct (String.eqb_spec k k1) as [->|Hne].
  - apply dict_get_None_iff in Hnin. rewrite Hnin. apply dict_get_set_same.
  - rewrite dict_get_set_other by assumption. reflexivity.
Qed.

(** ** The sources of a [JsonConfig] class *)

Section JsonConfigClass.

Variable rt : builtins.
Variable cls : settings_class.
Hypothesis cls_hook : customise_sources cls = JsonConfig.customise_sources rt.

(** [_build_values] under the hook of [JsonConfig]: the init arguments
    without [json_config_path], deep-updated over what the JSON source
    loads. *)
Lemma build_values_json_config kw env sec fs :
  BaseSettings_build_values cls kw env sec fs =
    (let '(json_config_path, kwargs) :=
       dict_pop "json_config_path" (json_config_path (config (model cls))) kw in
     paths <- JsonSettingsSource.init rt json_config_path ;;
     loaded <- JsonSettingsSource.call paths (model cls) fs ;;
     Ok (deep_update1 loaded kwargs)).
Proof.
  unfold BaseSettings_build_values. rewrite cls_hook.
  unfold JsonConfig.customise_sources. cbn [init_kwargs].
  destruct (dict_pop _ _ kw) as [jcp kwargs].
  destruct (JsonSettingsSource.init rt jcp) as [paths|e]; [|reflexivity].
  cbn [bind call_sources InitSettingsSource_call init_kwargs].
  destruct (JsonSettingsSource.call paths (model cls) fs); reflexivity.
Qed.

(** The sources the hook returns do not mention the environment or the
    secrets source. *)
Lemma build_values_ignores_env kw env sec env' sec' fs :
  BaseSettings_build_values cls kw env sec fs =
  BaseSettings_build_values cls kw env' sec' fs.
Proof. now rewrite !build_values_json_config. Qed.

(** Without a [json_config_path], neither among the init arguments nor as
    class attribute, the JSON source is empty and the values are the init
    arguments alone. *)
Lemma build_values_without_json kw env sec fs :
  json_config_path (config (model cls)) = VNone ->
  dict_wf kw ->
  dict_get "json_config_path" kw = None ->
  exists values,
    BaseSettings_build_values cls kw env sec fs = Ok values /\
    forall k, dict_get k values = dict_get k kw.
Proof.
  intros Hattr W Hnone. rewrite build_values_json_config.
  unfold dict_pop. rewrite Hnone, Hattr. cbn.
  eexists. split; [reflexivity|].
  intros k. rewrite dict_get_deep_update1 by assumption.
  now destruct (dict_get k kw).
Qed.

End JsonConfigClass.

(** ** Validation *)

Section ValidationFacts.

Variable rt : builtins.
Variable input_data : dict.

Local Abbreviation run := (fold_left (validate_field rt input_data)).

(** One field: a value joins [values], or errors join [errors]. *)
Lemma validate_field_cases st f :
  let st' := validate_field rt input_data st f in
  match field_input input_data f with
  | None =>
      values st' = values st /\
      errors st' = (errors st ++ [([LField (name f)], MissingError)])%list
  | Some v =>
      match validate rt (outer_type f) [LField (name f)] v with
      | inl v' =>
          values st' = dict_set (name f) v' (values st) /\
          errors st' = errors st
      | inr es =>
          values st' = values st /\ errors st' = (errors st ++ es)%list
      end
  end.
Proof.
  unfold field_input, validate_field.
  destruct (dict_get (name f) input_data) as [v|].
  - destruct (validate rt (outer_type f) [LField (name f)] v); split; reflexivity.
  - destruct (default f) as [v|]; [|split; reflexivity].
    destruct (validate rt (outer_type f) [LField (name f)] v); split; reflexivity.
Qed.

(** A failed validation reports at least one error. *)
Lemma validate_reports t loc v es : validate rt t loc v = inr es -> es <> [].
Proof.
  destruct t; destruct v; simpl;
    repeat match goal with
           | |- context [match ?x with _ => _ end] => destruct x eqn:?
           end;
    intros H; inversion H; subst; discriminate.
Qed.

Lemma validate_field_errors st f :
  exists es, errors (validate_field rt input_data st f) = (errors st ++ es)%list.
Proof.
  pose proof (validate_field_cases st f) as H. cbv zeta in H.
  destruct (field_input input_data f) as [v|].
  - destruct (validate rt (outer_type f) [LField (name f)] v) as [v'|es].
    + exists []. rewrite app_nil_r. tauto.
    + exists es. tauto.
  - eexists. apply H.
Qed.

(** Errors are only ever added. *)
Lemma run_errors fs st :
  exists es, errors (run fs st) = (errors st ++ es)%list.
Proof.
  revert st. induction fs as [|f fs IH]; intros st; simpl.
  - exists []. now rewrite app_nil_r.
  - destruct (IH (validate_field rt input_data st f)) as [es1 H1].
    destruct (validate_field_errors st f) as [es0 H0].
    exists (es0 ++ es1)%list. rewrite H1, H0. now rewrite app_assoc.
Qed.

(** The errors of a field that fails are among the errors of the run. *)
Lemma run_field_errors fs st f :
  In f fs ->
  match field_input input_data f with
  | None => In ([LField (name f)], MissingError) (errors (run fs st))
  | Some v =>
      forall es, validate rt (outer_type f) [LField (name f)] v = inr es ->
                 incl es (errors (run fs st))
  end.
Proof.
  revert st. induction fs as [|f0 fs IH]; intros st I; [destruct I|].
  destruct I as [->|I]; [|apply IH; assumption].
  simpl. destruct (run_errors fs (validate_field rt input_data st f)) as [es1 H1].
  pose proof (validate_field_cases st f) as H. cbv zeta in H.
  destruct (field_input input_data f) as [v|].
  - intros es Hv. rewrite Hv in H. destruct H as [_ He].
    rewrite H1, He. intros x Hx. apply in_or_app. left. apply in_or_app. now right.
  - destruct H as [_ He]. rewrite H1, He.
    apply in_or_app. left. apply in_or_app. right. now left.
Qed.

(** A run without errors has validated every field and stored the result
    under the field's name. *)
Lemma run_clean fs st :
  NoDup (map name fs) ->
  errors (run fs st) = [] ->
  errors st = [] /\
  (forall f, In f fs ->
     exists v v', field_input input_data f = Some v /\
                  validate rt (outer_type f) [LField (name f)] v = inl v' /\
                  dict_get (name f) (values (run fs st)) = Some v') /\
  (forall k, ~ In k (map name fs) ->
     dict_get k (values (run fs st)) = dict_get k (values st)).
Proof.
  revert st. induction fs as [|f fs IH]; intros st ND Hclean.
  - simpl in *. repeat split; auto. intros f [].
  - simpl in ND, Hclean. inversion ND as [|? ? Hnin ND']; subst.
    destruct (IH _ ND' Hclean) as [He [Hfs Hother]].
    pose proof (validate_field_cases st f) as H. cbv zeta in H.
    destruct (field_input input_data f) as [v|] eqn:Ein.
    + destruct (validate rt (outer_type f) [LField (name f)] v) as [v'|es] eqn:Ev.
      * destruct H as [Hv Herr]. repeat split.
        -- congruence.
        -- intros g [<-|Ig]; [|apply Hfs; assumption].
           exists v, v'. repeat split; auto. simpl.
           rewrite Hother by assumption. rewrite Hv. apply dict_get_set_same.
        -- intros k Hk. simpl in Hk. simpl. rewrite Hother by tauto.
           rewrite Hv. apply dict_get_set_other. intros E. apply Hk. now left.
      * destruct H as [_ Herr]. rewrite Herr in He.
        apply app_eq_nil in He. destruct He as [_ He].
        now apply validate_reports in Ev.
    + destruct H as [_ Herr]. rewrite Herr in He.
      apply app_eq_nil in He. destruct He as [_ He]. discriminate.
Qed.

(** When every field has a value and the value validates, the run stores
    the results in the order of the fields and reports nothing. *)
Lemma run_valid fs vs st :
  Forall2 (fun f v' =>
             exists v, field_input input_data f = Some v /\
                       validate rt (outer_type f) [LField (name f)] v = inl v')
          fs vs ->
  values (run fs st) = dict_update (values st) (combine (map name fs) vs) /\
  errors (run fs st) = errors st.
Proof.
  intros H. revert st.
  induction H as [|f v' fs vs [v [Hin Hv]] _ IH]; intros st; [split; reflexivity|].
  cbn [fold_left map combine]. destruct (IH (validate_field rt input_data st f))
    as [IHv IHe].
  pose proof (validate_field_cases st f) as Hc. cbv zeta in Hc.
  rewrite Hin, Hv in Hc. destruct Hc as [Hc1 Hc2].
  rewrite IHv, IHe, Hc1, Hc2. split; reflexivity.
Qed.

Lemma validate_field_names_used st f :
  (forall k, In k (names_used st) ->
             In k (names_used (validate_field rt input_data st f))) /\
  (dict_get (name f) input_data <> None ->
   In (name f) (names_used (validate_field rt input_data st f))).
Proof.
  unfold validate_field.
  destruct (dict_get (name f) input_data) as [v|].
  - destruct (validate rt (outer_type f) [LField (name f)] v); simpl;
      split; intros; apply in_or_app; simpl; auto.
  - destruct (default f) as [v|]; [|split; [auto | congruence]].
    destruct (validate rt (outer_type f) [LField (name f)] v); simpl;
      split; [auto | congruence | auto | congruence].
Qed.

(** The fields the input gives are recorded as used. *)
Lemma run_names_used fs st f :
  In f fs -> dict_get (name f) input_data <> None ->
  In (name f) (names_used (run fs st)).
Proof.
  assert (Hmono : forall fs st k,
            In k (names_used st) -> In k (names_used (run fs st))).
  { clear. intros l. induction l as [|g l IH]; intros st k I; simpl; auto.
    apply IH. now apply validate_field_names_used. }
  revert st. induction fs as [|f0 fs IH]; intros st I Hf; [destruct I|].
  destruct I as [->|I]; simpl.
  - apply Hmono. now apply validate_field_names_used.
  - now apply IH.
Qed.

(** Only the names of fields get a value. *)
Lemma run_values_other fs st k :
  ~ In k (map name fs) ->
  dict_get k (values (run fs st)) = dict_get k (values st).
Proof.
  revert st. induction fs as [|f fs IH]; intros st Hk; [reflexivity|].
  simpl in *. rewrite IH by tauto.
  pose proof (validate_field_cases st f) as H. cbv zeta in H.
  destruct (field_input input_data f) as [v|].
  - destruct (validate rt (outer_type f) [LField (name f)] v).
    + destruct H as [-> _]. apply dict_get_set_other. intros E. apply Hk. now left.
    + now destruct H as [-> _].
  - now destruct H as [-> _].
Qed.

End ValidationFacts.

(** [BaseModel.__init__] returns an object exactly when validation found no
    error, and raises the errors found otherwise. *)
Lemma BaseModel_init_Ok rt cls data obj :
  BaseModel_init rt cls data = Ok obj ->
  snd (validate_model rt cls data) = [] /\
  obj = {| obj_class := class_name cls;
           obj_dict := fst (validate_model rt cls data) |}.
Proof.
  unfold BaseModel_init.
  destruct (mem "__pydantic_self__" (keys data)); [discriminate|].
  destruct (validate_model rt cls data) as [vals [|e es]].
  - intros H. inversion H. auto.
  - destruct (escapes (e :: es)); discriminate.
Qed.

Lemma mem_false k l : ~ In k l -> mem k l = false.
Proof.
  intros H. destruct (mem k l) eqn:M; [|reflexivity].
  apply mem_In in M. contradiction.
Qed.

(** With errors, no exception escaped and no reserved keyword, the method
    raises the errors. *)
Lemma BaseModel_init_Raise rt cls data :
  ~ In "__pydantic_self__" (keys data) ->
  escapes (snd (validate_model rt cls data)) = false ->
  snd (validate_model rt cls data) <> [] ->
  BaseModel_init rt cls data =
    Raise (ValidationError (snd (validate_model rt cls data))).
Proof.
  intros Hk. unfold BaseModel_init. rewrite (mem_false _ _ Hk).
  destruct (validate_model rt cls data) as [vals [|e es]];
    cbn [snd]; intros He Hne; [congruence | now rewrite He].
Qed.

(** With errors, the method raises, whatever they are. *)
Lemma BaseModel_init_fails rt cls data :
  snd (validate_model rt cls data) <> [] ->
  exists e, BaseModel_init rt cls data = Raise e.
Proof.
  unfold BaseModel_init.
  destruct (mem "__pydantic_self__" (keys data)); [eexists; reflexivity|].
  destruct (validate_model rt cls data) as [vals [|e es]];
    cbn [snd]; intros Hne; [congruence|].
  destruct (escapes (e :: es)); eexists; reflexivity.
Qed.

(** Without errors and without the reserved keyword, it returns the object. *)
Lemma BaseModel_init_clean rt cls data :
  ~ In "__pydantic_self__" (keys data) ->
  snd (validate_model rt cls data) = [] ->
  BaseModel_init rt cls data =
    Ok {| obj_class := class_name cls;
          obj_dict := fst (validate_model rt cls data) |}.
Proof.
  intros Hk. unfold BaseModel_init. rewrite (mem_false _ _ Hk).
  destruct (validate_model rt cls data) as [vals errs]. cbn [fst snd].
  now intros ->.
Qed.

(** ** Precedence of the sources *)

Section Precedence.

Variable rt : builtins.
Variable cls : settings_class.
Hypothesis cls_hook : customise_sources cls = JsonConfig.customise_sources rt.

(** A successful construction: the merged values validated without error. *)
Lemma BaseSettings_init_Ok kw env sec fs obj :
  BaseSettings_init rt cls kw env sec fs = Ok obj ->
  exists loaded kwargs json_config_path,
    dict_pop "json_config_path" (Pydantic.json_config_path (config (model cls))) kw
      = (json_config_path, kwargs) /\
    json_source_mapping rt cls kw fs = Ok loaded /\
    snd (validate_model rt (model cls) (deep_update1 loaded kwargs)) = [] /\
    obj_dict obj = fst (validate_model rt (model cls) (deep_update1 loaded kwargs)).
Proof.
  unfold BaseSettings_init, json_source_mapping.
  rewrite (build_values_json_config rt cls cls_hook).
  destruct (dict_pop _ _ kw) as [jcp kwargs].
  destruct (JsonSettingsSource.init rt jcp) as [paths|e]; [|discriminate].
  cbn [bind].
  destruct (JsonSettingsSource.call paths (model cls) fs) as [loaded|e];
    [|discriminate].
  cbn [bind]. intros H. apply BaseModel_init_Ok in H. destruct H as [H1 ->].
  exists loaded, kwargs, jcp. auto.
Qed.

(** The value a field is validated from when both sources give one. *)
Lemma merged_value_of_both kw popped kwargs fallback f vi vj :
  dict_wf kw ->
  name f <> "json_config_path" ->
  dict_pop "json_config_path" fallback kw = (popped, kwargs) ->
  dict_get (name f) kw = Some vi ->
  forall m, dict_get (name f) m = Some vj ->
  field_input (deep_update1 m kwargs) f = Some (deep_update_value vj vi).
Proof.
  intros W Hne Hpop Hi m Hj.
  destruct (dict_pop_spec _ _ _ _ _ W Hpop) as [_ [Wk [_ Hother]]].
  unfold field_input. rewrite dict_get_deep_update1 by assumption.
  rewrite Hother by assumption. now rewrite Hi, Hj.
Qed.

End Precedence.

(** C3, as the sources are merged. When a field is given both as an init
    argument [vi] and as a top-level key of the JSON file, with value [vj], a
    successful construction validates the field from [vj] deep-updated by
    [vi].  That is [vi] itself, so the init argument (as its type coerces it)
    is the field, unless both values are mappings; two mappings are merged key
    by key, the init argument's entries replacing the file's. *)
Theorem init_argument_overrides_json (rt : builtins) (cls : settings_class)
    (kw : dict) (env sec : source) (fs : filesystem)
    (f : field) (vi vj : value) (loaded : dict) (obj : object) :
  customise_sources cls = JsonConfig.customise_sources rt ->
  NoDup (map name (fields (model cls))) ->
  In f (fields (model cls)) ->
  name f <> "json_config_path" ->
  dict_wf kw ->
  dict_get (name f) kw = Some vi ->
  json_source_mapping rt cls kw fs = Ok loaded ->
  dict_get (name f) loaded = Some vj ->
  BaseSettings_init rt cls kw env sec fs = Ok obj ->
  exists v',
    dict_get (name f) (obj_dict obj) = Some v' /\
    validate rt (outer_type f) [LField (name f)] (deep_update_value vj vi)
      = inl v' /\
    ((forall d, vi <> VDict d) \/ (forall d, vj <> VDict d) ->
     validate rt (outer_type f) [LField (name f)] vi = inl v').
Proof.
  intros Hhook ND If Hne W Hi Hload Hj Hinit.
  destruct (BaseSettings_init_Ok rt cls Hhook _ _ _ _ _ Hinit)
    as [loaded' [kwargs [jcp [Hpop [Hload' [Hclean Hobj]]]]]].
  assert (loaded' = loaded) by congruence. subst loaded'.
  pose proof (merged_value_of_both _ _ _ _ _ _ _ W Hne Hpop Hi loaded Hj) as Hin.
  unfold validate_model in Hclean, Hobj. cbn [fst snd] in Hclean, Hobj.
  apply app_eq_nil in Hclean. destruct Hclean as [Hclean _].
  destruct (run_clean rt _ _ _ ND Hclean) as [_ [Hfields _]].
  destruct (Hfields f If) as [v [v' [Hv [Hval Hget]]]].
  rewrite Hin in Hv. inversion Hv; subst v.
  exists v'. rewrite Hobj. repeat split; auto.
  intros Hnd. rewrite deep_update_value_replaces in Hval; auto.
  destruct Hnd; auto.
Qed.


Lemma init_argument_overrides_json_witness :
  exists v',
    dict_get "name"
      [("name", VStr "y"); ("base", VStr "b");
       ("path", VPath (mkPath "m.ckpt"));
       ("motion_module", VPath (mkPath "mm.ckpt"));
       ("seed", VList []); ("steps", VInt 25);
       ("guidance_scale", VFloat 7.5); ("prompt", VList []);
       ("n_prompt", VList [])] = Some v' /\
    validate example_builtins TStr [LField "name"]
      (deep_update_value (VStr "x") (VStr "y")) = inl v' /\
    ((forall d, VStr "y" <> VDict d) \/ (forall d, VStr "x" <> VDict d) ->
     validate example_builtins TStr [LField "name"] (VStr "y") = inl v').
Proof.
  apply (init_argument_overrides_json example_builtins
           (ModelConfig example_builtins)
           [("json_config_path", VPath (mkPath "model.json"));
            ("name", VStr "y")]
           silent_source silent_source example_fs
           {| name := "name"; outer_type := TStr; default := None |}
           (VStr "y") (VStr "x") example_model_json
           {| obj_class := "ModelConfig";
              obj_dict :=
                [("name", VStr "y"); ("base", VStr "b");
                 ("path", VPath (mkPath "m.ckpt"));
                 ("motion_module", VPath (mkPath "mm.ckpt"));
                 ("seed", VList []); ("steps", VInt 25);
                 ("guidance_scale", VFloat 7.5); ("prompt", VList []);
                 ("n_prompt", VList [])] |}).
  - reflexivity.
  - simpl. distinct_strings.
  - simpl. auto.
  - simpl. discriminate.
  - unfold dict_wf. simpl. distinct_strings.
  - reflexivity.
  - reflexivity.
  - reflexivity.
  - reflexivity.
Defined.

(** C3 as stated fails on a mapping-valued field: given
    [unet_additional_kwargs] both as the init argument [{a: 1}], which is
    valid as it stands, and in the file as [{b: 2}], the object holds
    [{b: 2, a: 1}], not the init argument. *)
Lemma init_argument_merged_with_json :
  exists obj,
    BaseSettings_init example_builtins (InferenceConfig example_builtins)
      [("json_config_path", VPath (mkPath "infer.json"));
       ("unet_additional_kwargs", VDict [("a", VInt 1)])]
      silent_source silent_source example_fs = Ok obj /\
    json_source_mapping example_builtins (InferenceConfig example_builtins)
      [("json_config_path", VPath (mkPath "infer.json"));
       ("unet_additional_kwargs", VDict [("a", VInt 1)])] example_fs
      = Ok example_infer_json /\
    dict_get "unet_additional_kwargs" example_infer_json
      = Some (VDict [("b", VInt 2)]) /\
    validate example_builtins TDictStrAny [LField "unet_additional_kwargs"]
      (VDict [("a", VInt 1)]) = inl (VDict [("a", VInt 1)]) /\
    dict_get "unet_additional_kwargs" (obj_dict obj)
      = Some (VDict [("b", VInt 2); ("a", VInt 1)]) /\
    dict_get "unet_additional_kwargs" (obj_dict obj)
      <> Some (VDict [("a", VInt 1)]).
Proof.
  eexists. split; [reflexivity|].
  repeat split; try reflexivity. simpl. discriminate.
Qed.

Lemma dict_del_absent k d : dict_get k d = None -> dict_del k d = d.
Proof.
  induction d as [|[k' v'] d IH]; simpl; [reflexivity|].
  destruct (String.eqb k k'); [discriminate|].
  intros H. now rewrite IH.
Qed.

Lemma dict_pop_del k default d :
  dict_pop k default d =
    (match dict_get k d with Some v => v | None => default end, dict_del k d).
Proof.
  unfold dict_pop. destruct (dict_get k d) eqn:G; [reflexivity|].
  now rewrite dict_del_absent.
Qed.

Section SourcePaths.

Variable rt : builtins.

Lemma Path_new_names x p :
  JsonSettingsSource.Path_new rt x = Ok p <-> names_file rt x p.
Proof.
  unfold names_file. split.
  - destruct x; simpl; intros H; inversion H; eauto.
  - intros [->|[s [-> ->]]]; reflexivity.
Qed.

Lemma Path_new_raises x e :
  JsonSettingsSource.Path_new rt x = Raise e -> exists msg, e = TypeError msg.
Proof. destruct x; simpl; intros H; inversion H; eauto. Qed.

Lemma Path_new_all_names l paths :
  JsonSettingsSource.Path_new_all rt l = Ok paths <->
  Forall2 (names_file rt) l paths.
Proof.
  revert paths. induction l as [|x l IH]; intros paths; simpl.
  - split; intros H; inversion H; [constructor | reflexivity].
  - split.
    + destruct (JsonSettingsSource.Path_new rt x) as [p|] eqn:Hp;
        [|discriminate]. cbn [bind].
      destruct (JsonSettingsSource.Path_new_all rt l) as [ps|] eqn:Hps;
        [|discriminate]. cbn [bind].
      intros H. inversion H; subst. constructor.
      * now apply Path_new_names.
      * now apply IH.
    + intros H. inversion H as [|? p ? ps Hx Hl]; subst.
      apply Path_new_names in Hx. apply IH in Hl. now rewrite Hx, Hl.
Qed.

Lemma Path_new_all_raises l e :
  JsonSettingsSource.Path_new_all rt l = Raise e -> exists msg, e = TypeError msg.
Proof.
  induction l as [|x l IH]; simpl; [discriminate|].
  destruct (JsonSettingsSource.Path_new rt x) as [p|e'] eqn:Hp; cbn [bind].
  - destruct (JsonSettingsSource.Path_new_all rt l) as [ps|e'']; cbn [bind];
      [discriminate|].
    intros H. inversion H; subst. now apply IH.
  - intros H. inversion H; subst. now apply (Path_new_raises x).
Qed.

(** [__init__] keeps exactly the files its argument names. *)
Lemma init_names_files v paths :
  JsonSettingsSource.init rt v = Ok paths <-> names_files rt v paths.
Proof.
  assert (One : forall x,
            (p <- JsonSettingsSource.Path_new rt x ;; Ok [p]) = Ok paths <->
            exists p, names_file rt x p /\ paths = [p]).
  { intros x. split.
    - destruct (JsonSettingsSource.Path_new rt x) as [p|] eqn:Hp;
        [|discriminate]. cbn [bind].
      intros H. inversion H. exists p. split; [now apply Path_new_names | auto].
    - intros [p [Hp ->]]. apply Path_new_names in Hp. now rewrite Hp. }
  destruct v; try exact (One _).
  - simpl. split; intros H; inversion H; reflexivity.
  - exact (Path_new_all_names l paths).
Qed.

(** It raises nothing but a TypeError. *)
Lemma init_raises v e :
  JsonSettingsSource.init rt v = Raise e -> exists msg, e = TypeError msg.
Proof.
  assert (One : forall x,
            (p <- JsonSettingsSource.Path_new rt x ;; Ok [p]) = Raise e ->
            exists msg, e = TypeError msg).
  { intros x. destruct (JsonSettingsSource.Path_new rt x) as [p|e'] eqn:Hp;
      cbn [bind]; [discriminate|].
    intros H. inversion H; subst. now apply (Path_new_raises x). }
  destruct v; try exact (One _).
  - discriminate.
  - exact (Path_new_all_raises l e).
Qed.

End SourcePaths.

(** C8. For a [JsonConfig] class with no field called [json_config_path]
    (the two classes of the module are such) and init arguments [kw], let
    the chosen value be the [json_config_path] argument, or the class
    attribute when [kw] has none.  The init source is over [kw] with the
    argument removed and every other argument kept.  When the chosen value
    names files, the hook returns that init source and the JSON source over
    exactly those files, and the values built are what that source loads
    updated with the arguments left.  When it names none, the hook raises a
    TypeError, and so does construction.  An object that is constructed has
    no [json_config_path] entry. *)
Theorem json_config_path_configures_loader (rt : builtins)
    (cls : settings_class) (kw : dict) (env sec : source) (fs : filesystem) :
  customise_sources cls = JsonConfig.customise_sources rt ->
  ~ In "json_config_path" (map name (fields (model cls))) ->
  dict_wf kw ->
  dict_get "json_config_path" (dict_del "json_config_path" kw) = None /\
  (forall k, k <> "json_config_path" ->
             dict_get k (dict_del "json_config_path" kw) = dict_get k kw) /\
  (forall paths,
     names_files rt (json_config_path_of cls kw) paths ->
     customise_sources cls (config (model cls)) {| init_kwargs := kw |} env sec
       = Ok [InitSettingsSource_call
               {| init_kwargs := dict_del "json_config_path" kw |};
             JsonSettingsSource.call paths] /\
     BaseSettings_build_values cls kw env sec fs =
       (loaded <- JsonSettingsSource.call paths (model cls) fs ;;
        Ok (deep_update1 loaded (dict_del "json_config_path" kw)))) /\
  ((forall paths, ~ names_files rt (json_config_path_of cls kw) paths) ->
   exists msg,
     customise_sources cls (config (model cls)) {| init_kwargs := kw |} env sec
       = Raise (TypeError msg) /\
     BaseSettings_init rt cls kw env sec fs = Raise (TypeError msg)) /\
  (forall obj,
     BaseSettings_init rt cls kw env sec fs = Ok obj ->
     dict_get "json_config_path" (obj_dict obj) = None).
Proof.
  intros Hhook Hfield W.
  assert (Hsrc : customise_sources cls (config (model cls))
                   {| init_kwargs := kw |} env sec =
                 (paths <- JsonSettingsSource.init rt (json_config_path_of cls kw) ;;
                  Ok [InitSettingsSource_call
                        {| init_kwargs := dict_del "json_config_path" kw |};
                      JsonSettingsSource.call paths])).
  { rewrite Hhook. unfold JsonConfig.customise_sources. cbn [init_kwargs].
    now rewrite dict_pop_del. }
  assert (Hbuild : BaseSettings_build_values cls kw env sec fs =
                   (paths <- JsonSettingsSource.init rt (json_config_path_of cls kw) ;;
                    loaded <- JsonSettingsSource.call paths (model cls) fs ;;
                    Ok (deep_update1 loaded (dict_del "json_config_path" kw)))).
  { rewrite (build_values_json_config rt cls Hhook). now rewrite dict_pop_del. }
  split; [now apply dict_get_del_same|].
  split; [intros k Hk; now apply dict_get_del_other|].
  split; [|split].
  - intros paths Hp. apply init_names_files in Hp.
    rewrite Hsrc, Hbuild, Hp. split; reflexivity.
  - intros Hnone.
    destruct (JsonSettingsSource.init rt (json_config_path_of cls kw))
      as [paths|e] eqn:Hi.
    + apply init_names_files in Hi. now apply Hnone in Hi.
    + destruct (init_raises rt _ _ Hi) as [msg ->]. exists msg.
      unfold BaseSettings_init. rewrite Hsrc, Hbuild, ?Hi. split; reflexivity.
  - intros obj Hinit.
    destruct (BaseSettings_init_Ok rt cls Hhook _ _ _ _ _ Hinit)
      as [loaded [kwargs [jcp [_ [_ [_ Hobj]]]]]].
    rewrite Hobj. unfold validate_model. cbn [fst].
    now rewrite run_values_other.
Qed.

Lemma json_config_path_configures_loader_witness :
  customise_sources (ModelConfig example_builtins)
    (config (model (ModelConfig example_builtins)))
    {| init_kwargs :=
         [("steps", VInt 30); ("json_config_path", VStr "model.json")] |}
    steps_env silent_source =
  Ok [InitSettingsSource_call {| init_kwargs := [("steps", VInt 30)] |};
      JsonSettingsSource.call [mkPath "model.json"]] /\
  BaseSettings_init example_builtins (ModelConfig example_builtins)
    [("steps", VInt 30); ("json_config_path", VStr "model.json")]
    steps_env silent_source example_fs =
  Ok {| obj_class := "ModelConfig";
        obj_dict :=
          [("name", VStr "x"); ("base", VStr "b");
           ("path", VPath (mkPath "m.ckpt"));
           ("motion_module", VPath (mkPath "mm.ckpt"));
           ("seed", VList []); ("steps", VInt 30);
           ("guidance_scale", VFloat 7.5); ("prompt", VList []);
           ("n_prompt", VList [])] |} /\
  dict_get "json_config_path"
    [("name", VStr "x"); ("base", VStr "b");
     ("path", VPath (mkPath "m.ckpt"));
     ("motion_module", VPath (mkPath "mm.ckpt"));
     ("seed", VList []); ("steps", VInt 30);
     ("guidance_scale", VFloat 7.5); ("prompt", VList []);
     ("n_prompt", VList [])] = None /\
  (exists msg,
     BaseSettings_init example_builtins (ModelConfig example_builtins)
       [("json_config_path", VInt 5)] steps_env silent_source example_fs =
     Raise (TypeError msg)).
Proof.
  destruct (json_config_path_configures_loader example_builtins
              (ModelConfig example_builtins)
              [("steps", VInt 30); ("json_config_path", VStr "model.json")]
              steps_env silent_source example_fs)
    as [_ [_ [Hsources [_ Hobject]]]].
  { reflexivity. }
  { simpl. intuition discriminate. }
  { unfold dict_wf. simpl. distinct_strings. }
  destruct (json_config_path_configures_loader example_builtins
              (ModelConfig example_builtins)
              [("json_config_path", VInt 5)]
              steps_env silent_source example_fs)
    as [_ [_ [_ [Hraises _]]]].
  { reflexivity. }
  { simpl. intuition discriminate. }
  { unfold dict_wf. simpl. distinct_strings. }
  assert (Hinit : BaseSettings_init example_builtins
                    (ModelConfig example_builtins)
                    [("steps", VInt 30); ("json_config_path", VStr "model.json")]
                    steps_env silent_source example_fs =
                  Ok {| obj_class := "ModelConfig";
                        obj_dict :=
                          [("name", VStr "x"); ("base", VStr "b");
                           ("path", VPath (mkPath "m.ckpt"));
                           ("motion_module", VPath (mkPath "mm.ckpt"));
                           ("seed", VList []); ("steps", VInt 30);
                           ("guidance_scale", VFloat 7.5); ("prompt", VList []);
                           ("n_prompt", VList [])] |})
    by (vm_compute; reflexivity).
  split; [|split; [exact Hinit | split]].
  - apply (Hsources [mkPath "model.json"]).
    exists (mkPath "model.json"). split; [|reflexivity].
    right. exists "model.json". split; reflexivity.
  - exact (Hobject _ Hinit).
  - destruct Hraises as [msg [_ Hmsg]]; [|exists msg; exact Hmsg].
    intros paths [p [[Hp|[s [Hs _]]] _]]; discriminate.
Defined.

(** C9. For both settings classes, construction from the same init
    arguments on the same files gives the same outcome, the same object or
    the same exception, whatever the environment and the secrets sources
    are. *)
Theorem environment_and_secrets_ignored (rt : builtins) (kw : dict)
    (env sec env' sec' : source) (fs : filesystem) :
  BaseSettings_init rt (ModelConfig rt) kw env sec fs =
  BaseSettings_init rt (ModelConfig rt) kw env' sec' fs /\
  BaseSettings_init rt (InferenceConfig rt) kw env sec fs =
  BaseSettings_init rt (InferenceConfig rt) kw env' sec' fs.
Proof.
  unfold BaseSettings_init. split.
  - now rewrite (build_values_ignores_env rt (ModelConfig rt) eq_refl
                   kw env sec env' sec').
  - now rewrite (build_values_ignores_env rt (InferenceConfig rt) eq_refl
                   kw env sec env' sec').
Qed.

(** Under the hook of the base framework the environment does take part:
    the same class without [JsonConfig] reads [steps] from it. *)
Remark environment_read_by_default_sources :
  BaseSettings_init example_builtins
    (ModelConfig_default_sources example_builtins) example_model_json
    silent_source silent_source example_fs <>
  BaseSettings_init example_builtins
    (ModelConfig_default_sources example_builtins) example_model_json
    steps_env silent_source example_fs.
Proof. vm_compute. discriminate. Qed.

(** ** Validation errors *)

Section ErrorLocations.

Variable rt : builtins.

Definition under (loc : list loc_item) (e : error_wrapper) : Prop :=
  exists suffix, fst e = (loc ++ suffix)%list.

Lemma validate_items_under (validate_item : list loc_item -> value -> validated)
    loc l :
  (forall loc' v es, validate_item loc' v = inr es -> Forall (under loc') es) ->
  forall i, Forall (under loc) (snd (validate_items validate_item loc i l)).
Proof.
  intros Hitem. induction l as [|v l IH]; intros i; simpl; [constructor|].
  specialize (IH (S i)).
  destruct (validate_items validate_item loc (S i) l) as [rs es].
  destruct (validate_item (loc ++ [LIndex i])%list v) as [r|ee] eqn:E; simpl; auto.
  apply Forall_app. split; auto.
  apply Hitem in E. eapply Forall_impl; [|exact E].
  intros e [suffix Hs]. exists ([LIndex i] ++ suffix)%list.
  now rewrite Hs, app_assoc.
Qed.

(** Every error of a value is located at or under the place of the value. *)
Lemma validate_under t : forall loc v es,
  validate rt t loc v = inr es -> Forall (under loc) es.
Proof.
  assert (Hhere : forall loc kind, Forall (under loc) [(loc, kind)]).
  { intros. constructor; [|constructor]. exists []. simpl. now rewrite app_nil_r. }
  induction t as [| | | |item IH|]; intros loc v es;
    destruct v; simpl;
    repeat match goal with
           | |- context [match ?x with _ => _ end] =>
               lazymatch x with
               | validate_items _ _ _ _ => fail
               | _ => destruct x eqn:?
               end
           end;
    try (intros H; inversion H; subst; apply Hhere).
  pose proof (validate_items_under (validate rt item) loc l IH 0) as Hl.
  destruct (validate_items (validate rt item) loc 0 l) as [rs [|e0 es0]];
    intros H; inversion H; subst. exact Hl.
Qed.

End ErrorLocations.

(** C7, as pydantic raises. When the merged mapping lacks a required field,
    or holds for a field a value its type refuses, construction raises and
    returns no object.  What it raises is a ValidationError with an error
    located at that field (the missing-field error in the first case, the
    errors of the value in the second), provided that no key of the mapping
    is the reserved keyword and that no exception escaped the validators: a
    float field given an int beyond the float range makes float() raise
    OverflowError, which pydantic does not catch. *)
Theorem invalid_field_fails_validation (rt : builtins) (cls : settings_class)
    (kw merged : dict) (env sec : source) (fs : filesystem) (f : field) :
  BaseSettings_build_values cls kw env sec fs = Ok merged ->
  In f (fields (model cls)) ->
  (default f = None /\ dict_get (name f) merged = None) \/
  (exists v es, dict_get (name f) merged = Some v /\
                validate rt (outer_type f) [LField (name f)] v = inr es) ->
  (exists e, BaseSettings_init rt cls kw env sec fs = Raise e) /\
  (~ In "__pydantic_self__" (keys merged) ->
   escapes (snd (validate_model rt (model cls) merged)) = false ->
   exists errs,
     BaseSettings_init rt cls kw env sec fs = Raise (ValidationError errs) /\
     (forall v es, dict_get (name f) merged = Some v ->
                   validate rt (outer_type f) [LField (name f)] v = inr es ->
                   incl es errs) /\
     exists suffix kind,
       In (LField (name f) :: suffix, kind) errs /\
       (dict_get (name f) merged = None -> suffix = [] /\ kind = MissingError)).
Proof.
  intros Hbuild If Hbad.
  unfold BaseSettings_init. rewrite Hbuild. cbn [bind].
  pose proof (run_field_errors rt merged (fields (model cls))
                {| values := []; errors := []; names_used := [] |} f If) as Herr.
  assert (Hin : exists suffix kind,
             In (LField (name f) :: suffix, kind)
                (snd (validate_model rt (model cls) merged)) /\
             (dict_get (name f) merged = None ->
              suffix = [] /\ kind = MissingError)).
  { unfold validate_model. cbn [snd].
    destruct Hbad as [[Hreq Habs] | [v [es [Hv Hes]]]].
    - unfold field_input in Herr. rewrite Habs, Hreq in Herr.
      exists [], MissingError. split; auto. apply in_or_app. now left.
    - unfold field_input in Herr. rewrite Hv in Herr.
      specialize (Herr es Hes).
      pose proof (validate_reports rt _ _ _ _ Hes) as Hne.
      pose proof (validate_under rt _ _ _ _ Hes) as Hloc.
      destruct es as [|[loc kind] es]; [congruence|].
      inversion Hloc as [|? ? [suffix Hs] _]; subst. simpl in Hs. subst loc.
      exists suffix, kind. split; [|congruence].
      apply in_or_app. left. apply Herr. now left. }
  assert (Hne : snd (validate_model rt (model cls) merged) <> []).
  { destruct Hin as [suffix [kind [Hin _]]]. intros E. rewrite E in Hin.
    destruct Hin. }
  split; [now apply BaseModel_init_fails|].
  intros Hk Hesc. exists (snd (validate_model rt (model cls) merged)).
  split; [now apply BaseModel_init_Raise|]. split; [|exact Hin].
  intros v es Hv Hes. unfold field_input in Herr. rewrite Hv in Herr.
  unfold validate_model. cbn [snd]. intros x Hx. apply in_or_app. left.
  now apply (Herr es Hes).
Qed.

Lemma invalid_field_fails_validation_witness :
  (exists errs,
     BaseSettings_init example_builtins (ModelConfig example_builtins)
       [("json_config_path", VPath (mkPath "bad.json"))]
       silent_source silent_source faulty_fs = Raise (ValidationError errs) /\
     (forall v es, dict_get "motion_module" bad_model_json = Some v ->
                   validate example_builtins TPath [LField "motion_module"] v
                     = inr es ->
                   incl es errs) /\
     exists suffix kind,
       In (LField "motion_module" :: suffix, kind) errs /\
       (dict_get "motion_module" bad_model_json = None ->
        suffix = [] /\ kind = MissingError)) /\
  (exists errs,
     BaseSettings_init example_builtins (ModelConfig example_builtins)
       [("json_config_path", VPath (mkPath "bad.json"))]
       silent_source silent_source faulty_fs = Raise (ValidationError errs) /\
     (forall v es, dict_get "path" bad_model_json = Some v ->
                   validate example_builtins TPath [LField "path"] v = inr es ->
                   incl es errs) /\
     exists suffix kind,
       In (LField "path" :: suffix, kind) errs /\
       (dict_get "path" bad_model_json = None ->
        suffix = [] /\ kind = MissingError)).
Proof.
  assert (Hb : BaseSettings_build_values (ModelConfig example_builtins)
                 [("json_config_path", VPath (mkPath "bad.json"))]
                 silent_source silent_source faulty_fs = Ok bad_model_json)
    by reflexivity.
  assert (Hk : ~ In "__pydantic_self__" (keys bad_model_json))
    by (simpl; intuition discriminate).
  assert (He : escapes
                 (snd (validate_model example_builtins
                         (model (ModelConfig example_builtins))
                         bad_model_json)) = false)
    by (vm_compute; reflexivity).
  split.
  - apply (invalid_field_fails_validation example_builtins
             (ModelConfig example_builtins) _ bad_model_json
             silent_source silent_source faulty_fs
             {| name := "motion_module"; outer_type := TPath; default := None |}
             Hb); [simpl; tauto | left; split; reflexivity | exact Hk | exact He].
  - apply (invalid_field_fails_validation example_builtins
             (ModelConfig example_builtins) _ bad_model_json
             silent_source silent_source faulty_fs
             {| name := "path"; outer_type := TPath; default := None |}
             Hb); [simpl; tauto | | exact Hk | exact He].
    right. exists (VInt 5), [([LField "path"], PathError)].
    split; reflexivity.
Defined.

(** C7 as stated fails: with the required path absent and guidance_scale an
    int beyond the float range, construction raises the OverflowError of
    float(), not a validation error. *)
Lemma overflow_hides_missing_field :
  dict_get "path" huge_model_json = None /\
  BaseSettings_build_values (ModelConfig example_builtins)
    [("json_config_path", VPath (mkPath "huge.json"))]
    silent_source silent_source faulty_fs = Ok huge_model_json /\
  BaseSettings_init example_builtins (ModelConfig example_builtins)
    [("json_config_path", VPath (mkPath "huge.json"))]
    silent_source silent_source faulty_fs = Raise OverflowError /\
  (forall errs,
     BaseSettings_init example_builtins (ModelConfig example_builtins)
       [("json_config_path", VPath (mkPath "huge.json"))]
       silent_source silent_source faulty_fs <> Raise (ValidationError errs)).
Proof.
  assert (H : BaseSettings_init example_builtins (ModelConfig example_builtins)
                [("json_config_path", VPath (mkPath "huge.json"))]
                silent_source silent_source faulty_fs = Raise OverflowError)
    by (vm_compute; reflexivity).
  repeat split; try reflexivity; try exact H.
  intros errs. rewrite H. discriminate.
Qed.

(** ** The defaults of [ModelConfig] *)

Lemma extra_keys_none input_data used :
  (forall k, In k (keys input_data) -> In k used) ->
  extra_keys input_data used = [].
Proof.
  unfold extra_keys. intros H.
  induction (keys input_data) as [|k ks IH]; simpl; [reflexivity|].
  assert (Hk : mem k used = true) by (apply mem_In, H; now left).
  rewrite Hk. simpl. apply IH. intros k' I. apply H. now right.
Qed.

(** C6. A model config file holding exactly the four required fields, with
    values their types accept (the strings of the specification's example
    are such), is constructed into the object that has the validated four
    and seed=[], steps=25, guidance_scale=7.5, prompt=[], n_prompt=[]. *)
Theorem model_config_defaults (rt : builtins) (env sec : source)
    (fs : filesystem) (config_path : Path) (d : dict)
    (vname vbase vpath vmotion : value) (name' base' path' motion' : value) :
  loads fs "utf-8" config_path d ->
  dict_wf d ->
  (forall k, In k (keys d) -> In k ["name"; "base"; "path"; "motion_module"]) ->
  dict_get "name" d = Some vname ->
  dict_get "base" d = Some vbase ->
  dict_get "path" d = Some vpath ->
  dict_get "motion_module" d = Some vmotion ->
  validate rt TStr [LField "name"] vname = inl name' ->
  validate rt TStr [LField "base"] vbase = inl base' ->
  validate rt TPath [LField "path"] vpath = inl path' ->
  validate rt TPath [LField "motion_module"] vmotion = inl motion' ->
  BaseSettings_init rt (ModelConfig rt)
    [("json_config_path", VPath config_path)] env sec fs =
  Ok {| obj_class := "ModelConfig";
        obj_dict :=
          [("name", name'); ("base", base'); ("path", path');
           ("motion_module", motion'); ("seed", VList []); ("steps", VInt 25);
           ("guidance_scale", VFloat 7.5); ("prompt", VList []);
           ("n_prompt", VList [])] |}.
Proof.
  intros [r [Hf Hr]] W Hkeys Hn Hb Hp Hm Vn Vb Vp Vm.
  assert (Hnone : forall k,
            ~ In k ["name"; "base"; "path"; "motion_module"] ->
            dict_get k d = None).
  { intros k Hk. apply dict_get_None_iff. intros I. apply Hk, Hkeys, I. }
  assert (Hbuild : BaseSettings_build_values (ModelConfig rt)
                     [("json_config_path", VPath config_path)] env sec fs
                   = Ok d).
  { rewrite (build_values_json_config rt (ModelConfig rt) eq_refl).
    cbn. rewrite Hf. cbn. rewrite Hr. cbn [bind].
    change (fold_left _ d []) with (dict_update [] d).
    now rewrite (dict_update_empty d W). }
  assert (Hself : ~ In "__pydantic_self__" (keys d)).
  { intros I. apply Hkeys in I. simpl in I. intuition discriminate. }
  unfold BaseSettings_init. rewrite Hbuild. cbn [bind].
  unfold BaseModel_init. rewrite (mem_false _ _ Hself).
  unfold validate_model. cbv zeta.
  set (start := {| values := []; errors := []; names_used := [] |}).
  set (fs0 := fields (model (ModelConfig rt))).
  assert (Hrun : values (fold_left (validate_field rt d) fs0 start) =
                 dict_update []
                   (combine (map name fs0)
                      [name'; base'; path'; motion'; VList []; VInt 25;
                       VFloat 7.5; VList []; VList []]) /\
                 errors (fold_left (validate_field rt d) fs0 start) = []).
  { apply run_valid. unfold fs0, field_input. cbn [fields model ModelConfig].
    repeat constructor; cbn [name outer_type default].
    - exists vname. now rewrite Hn.
    - exists vbase. now rewrite Hb.
    - exists vpath. now rewrite Hp.
    - exists vmotion. now rewrite Hm.
    - exists (VList []). rewrite Hnone by (simpl; intuition discriminate). auto.
    - exists (VInt 25). rewrite Hnone by (simpl; intuition discriminate). auto.
    - exists (VFloat 7.5). rewrite Hnone by (simpl; intuition discriminate). auto.
    - exists (VList []). rewrite Hnone by (simpl; intuition discriminate). auto.
    - exists (VList []). rewrite Hnone by (simpl; intuition discriminate). auto. }
  destruct Hrun as [Hvals Herrs].
  rewrite Hvals, Herrs, extra_keys_none; [reflexivity|].
  intros k I.
  assert (Hd : dict_get k d <> None)
    by (intros E; apply dict_get_None_iff in E; tauto).
  apply Hkeys in I. simpl in I.
  destruct I as [<-|[<-|[<-|[<-|[]]]]].
  - apply (run_names_used rt d fs0 start
             {| name := "name"; outer_type := TStr; default := None |});
      [simpl; tauto | exact Hd].
  - apply (run_names_used rt d fs0 start
             {| name := "base"; outer_type := TStr; default := None |});
      [simpl; tauto | exact Hd].
  - apply (run_names_used rt d fs0 start
             {| name := "path"; outer_type := TPath; default := None |});
      [simpl; tauto | exact Hd].
  - apply (run_names_used rt d fs0 start
             {| name := "motion_module"; outer_type := TPath; default := None |});
      [simpl; tauto | exact Hd].
Qed.

Lemma model_config_defaults_witness :
  BaseSettings_init example_builtins (ModelConfig example_builtins)
    [("json_config_path", VPath (mkPath "model.json"))]
    silent_source silent_source example_fs =
  Ok {| obj_class := "ModelConfig";
        obj_dict :=
          [("name", VStr "x"); ("base", VStr "b");
           ("path", VPath (mkPath "m.ckpt"));
           ("motion_module", VPath (mkPath "mm.ckpt"));
           ("seed", VList []); ("steps", VInt 25);
           ("guidance_scale", VFloat 7.5); ("prompt", VList []);
           ("n_prompt", VList [])] |}.
Proof.
  apply (model_config_defaults example_builtins silent_source silent_source
           example_fs (mkPath "model.json") example_model_json
           (VStr "x") (VStr "b") (VStr "m.ckpt") (VStr "mm.ckpt")).
  - eexists. split; reflexivity.
  - unfold dict_wf. simpl. distinct_strings.
  - simpl. tauto.
  - reflexivity.
  - reflexivity.
  - reflexivity.
  - reflexivity.
  - reflexivity.
  - reflexivity.
  - reflexivity.
  - reflexivity.
Defined.

(** ** lru_cache *)

Section LruFacts.

Variables K V St : Type.
Variable key_eqb : K -> K -> bool.
Hypothesis key_eqb_spec : forall a b, key_eqb a b = true <-> a = b.
Variable maxsize : nat.
Hypothesis maxsize_pos : 0 < maxsize.

Local Abbreviation cache_get := (Functools.cache_get key_eqb).
Local Abbreviation unlink := (Functools.unlink key_eqb).
Local Abbreviation wrapper := (Functools.wrapper (S := St) key_eqb maxsize).
Local Abbreviation entries := (@Functools.entries K V).
Local Abbreviation hits := (@Functools.hits K V).
Local Abbreviation misses := (@Functools.misses K V).

Lemma key_eqb_refl k : key_eqb k k = true.
Proof. now apply key_eqb_spec. Qed.

Lemma key_eqb_neq a b : a <> b -> key_eqb a b = false.
Proof.
  intros H. destruct (key_eqb a b) eqn:E; auto. apply key_eqb_spec in E. tauto.
Qed.

Lemma cache_get_None key (l : list (K * V)) :
  cache_get key l = None <-> ~ In key (map fst l).
Proof.
  induction l as [|[k v] l IH]; simpl; [tauto|].
  destruct (key_eqb key k) eqn:E.
  - apply key_eqb_spec in E. subst. split; [discriminate | tauto].
  - rewrite IH. split; [|tauto].
    intros H [E'|I]; [|tauto]. subst. rewrite key_eqb_refl in E. discriminate.
Qed.

Lemma unlink_incl key (l : list (K * V)) : incl (unlink key l) l.
Proof.
  induction l as [|[k v] l IH]; simpl; [apply incl_refl|].
  destruct (key_eqb key k).
  - apply incl_tl, incl_refl.
  - intros x [E|I]; [now left | right; now apply IH].
Qed.

Lemma unlink_keys key (l : list (K * V)) :
  NoDup (map fst l) ->
  NoDup (map fst (unlink key l)) /\ ~ In key (map fst (unlink key l)).
Proof.
  induction l as [|[k v] l IH]; simpl; intros ND; [split; [constructor | tauto]|].
  inversion ND as [|? ? Hnin ND']; subst.
  destruct (key_eqb key k) eqn:E.
  - apply key_eqb_spec in E. subst. auto.
  - destruct (IH ND') as [IH1 IH2]. simpl. split.
    + constructor; auto. intros I. apply Hnin.
      apply in_map_iff in I. destruct I as [x [Hx Ix]].
      apply in_map_iff. exists x. split; auto. now apply (unlink_incl key l).
    + intros [E'|I]; [|tauto]. subst. rewrite key_eqb_refl in E. discriminate.
Qed.

Lemma unlink_length key (l : list (K * V)) v :
  cache_get key l = Some v -> S (length (unlink key l)) = length l.
Proof.
  induction l as [|[k v0] l IH]; simpl; [discriminate|].
  destruct (key_eqb key k); intros H; simpl; [reflexivity | now rewrite IH].
Qed.

Lemma cache_get_unlink_other key k (l : list (K * V)) :
  k <> key -> cache_get k (unlink key l) = cache_get k l.
Proof.
  intros Hne. induction l as [|[k0 v0] l IH]; simpl; auto.
  destruct (key_eqb key k0) eqn:E; simpl.
  - apply key_eqb_spec in E. subst. now rewrite key_eqb_neq.
  - now rewrite IH.
Qed.

Lemma removelast_incl (A : Type) (l : list A) : incl (removelast l) l.
Proof.
  induction l as [|x l IH]; [apply incl_refl|].
  destruct l as [|y l]; [intros z []|].
  change (removelast (x :: y :: l)) with (x :: removelast (y :: l)).
  intros z [E|I]; [now left | right; now apply IH].
Qed.

Lemma removelast_keys (l : list (K * V)) :
  NoDup (map fst l) -> NoDup (map fst (removelast l)).
Proof.
  induction l as [|[k v] l IH]; intros ND; [constructor|].
  destruct l as [|y l]; [constructor|].
  change (removelast ((k, v) :: y :: l)) with ((k, v) :: removelast (y :: l)).
  change (map fst ((k, v) :: y :: l)) with (k :: map fst (y :: l)) in ND.
  inversion ND as [|? ? Hnin ND']; subst.
  change (NoDup (k :: map fst (removelast (y :: l)))).
  constructor; [|now apply IH].
  intros I. apply Hnin. change (In k (map fst (y :: l))).
  apply in_map_iff in I. destruct I as [x [Hx Ix]].
  rewrite <- Hx. apply in_map. now apply removelast_incl.
Qed.

Lemma removelast_length (A : Type) (l : list A) :
  l <> [] -> S (length (removelast l)) = length l.
Proof.
  intros H. destruct (exists_last H) as [l' [x ->]].
  rewrite removelast_last, length_app. simpl. lia.
Qed.

Lemma wrapper_hit f key c s v :
  cache_get key (entries c) = Some v ->
  wrapper f key c s =
    (Ok v,
     {| Functools.entries := (key, v) :: unlink key (entries c);
        Functools.hits := hits c + 1; Functools.misses := misses c |},
     s).
Proof. intros G. unfold Functools.wrapper. now rewrite G. Qed.

Lemma wrapper_miss f key c s :
  cache_get key (entries c) = None ->
  wrapper f key c s =
    match f key s with
    | (Ok v, s') =>
        (Ok v,
         {| Functools.entries :=
              (key, v) :: (if Nat.leb maxsize (length (entries c))
                           then removelast (entries c) else entries c);
            Functools.hits := hits c; Functools.misses := misses c + 1 |},
         s')
    | (Raise e, s') =>
        (Raise e,
         {| Functools.entries := entries c;
            Functools.hits := hits c; Functools.misses := misses c + 1 |},
         s')
    end.
Proof.
  intros G. unfold Functools.wrapper. rewrite G.
  destruct (f key s) as [[v|e] s']; reflexivity.
Qed.

(** The outcomes of a call of the wrapper. *)
Inductive outcome (f : K -> St -> result V * St) (key : K)
    (c : Functools.cache K V) (s : St)
    : result V -> Functools.cache K V -> St -> Prop :=
| outcome_hit v :
    cache_get key (entries c) = Some v ->
    outcome f key c s (Ok v)
      {| Functools.entries := (key, v) :: unlink key (entries c);
         Functools.hits := hits c + 1; Functools.misses := misses c |} s
| outcome_raise e s' :
    cache_get key (entries c) = None ->
    f key s = (Raise e, s') ->
    outcome f key c s (Raise e)
      {| Functools.entries := entries c;
         Functools.hits := hits c; Functools.misses := misses c + 1 |} s'
| outcome_made v s' :
    cache_get key (entries c) = None ->
    f key s = (Ok v, s') ->
    outcome f key c s (Ok v)
      {| Functools.entries :=
           (key, v) :: (if Nat.leb maxsize (length (entries c))
                        then removelast (entries c) else entries c);
         Functools.hits := hits c; Functools.misses := misses c + 1 |} s'.

Lemma wrapper_outcome f key c s :
  let '(r, c', s') := wrapper f key c s in outcome f key c s r c' s'.
Proof.
  unfold Functools.wrapper.
  destruct (cache_get key (entries c)) as [v|] eqn:G.
  - now constructor.
  - destruct (f key s) as [[v|e] s'] eqn:F.
    + now apply outcome_made.
    + now apply outcome_raise.
Qed.

(** The entries keep distinct keys and never outnumber [maxsize]. *)
Definition bounded (c : Functools.cache K V) : Prop :=
  NoDup (map fst (entries c)) /\ length (entries c) <= maxsize.

Lemma outcome_bounded f key c s r c' s' :
  outcome f key c s r c' s' -> bounded c -> bounded c'.
Proof.
  intros H [ND Len]. destruct H as [v G | e s' G F | v s' G F];
    unfold bounded; cbn [Functools.entries].
  - destruct (unlink_keys key _ ND) as [ND' Hnin]. split.
    + simpl. now constructor.
    + simpl. now rewrite (unlink_length _ _ _ G).
  - auto.
  - apply cache_get_None in G. destruct (Nat.leb_spec maxsize (length (entries c))).
    + split.
      * simpl. constructor; [|now apply removelast_keys].
        intros I. apply G. apply in_map_iff in I. destruct I as [x [Hx Ix]].
        apply in_map_iff. exists x. split; auto. now apply removelast_incl.
      * simpl. rewrite removelast_length; auto.
        intros E. rewrite E in *. simpl in *. lia.
    + split; [simpl; now constructor | simpl; lia].
Qed.

End LruFacts.

Arguments bounded {K V} maxsize c.
Arguments outcome {K V St} key_eqb maxsize f key c s _ _ _.

(** ** The cached accessors *)

Section AccessorFacts.

Variable rt : builtins.
Variable default_config_path : Path.

Local Abbreviation acc := (access rt default_config_path).
Local Abbreviation bdy := (body rt default_config_path).
Local Abbreviation reach := (reachable rt default_config_path).
Local Abbreviation cache_get := (Functools.cache_get call_args_eqb).
Local Abbreviation unlink := (Functools.unlink call_args_eqb).
Local Abbreviation entries := (@Functools.entries call_args ref).
Local Abbreviation misses := (@Functools.misses call_args ref).

Lemma Path_eqb_spec p q : Path_eqb p q = true <-> p = q.
Proof.
  destruct p as [p], q as [q]. unfold Path_eqb. simpl.
  rewrite String.eqb_eq. split; congruence.
Qed.

Lemma call_args_eqb_spec a b : call_args_eqb a b = true <-> a = b.
Proof.
  destruct a, b; simpl; try rewrite Path_eqb_spec;
    split; congruence || discriminate.
Qed.

(** The body of an accessor returns a new object, the next of the heap, or
    raises and leaves the heap as it was. *)
Lemma body_spec a w args h :
  match bdy a w args h with
  | (Ok r, h') => r = length h /\ exists o, h' = (h ++ [o])%list
  | (Raise _, h') => h' = h
  end.
Proof.
  destruct a, args;
    unfold body, get_infer_config_body, get_model_config_body, construct;
    try match goal with
        | |- context [BaseSettings_init ?r ?c ?k ?e ?x ?f] =>
            destruct (BaseSettings_init r c k e x f)
        end; eauto.
Qed.

(** An accessor is the wrapper around its body, on its own cache. *)
Lemma access_outcome a w args s :
  outcome call_args_eqb 2 (bdy a w) args (cache_of a s) (objects s)
    (fst (acc a w args s))
    (cache_of a (snd (acc a w args s)))
    (objects (snd (acc a w args s))) /\
  (forall b, b <> a ->
     cache_of b (snd (acc a w args s)) = cache_of b s).
Proof.
  destruct a; unfold access, body, cache_of, get_infer_config, get_model_config.
  - pose proof (wrapper_outcome _ _ _ call_args_eqb 2
                  (get_infer_config_body rt default_config_path w)
                  args (infer_cache s) (objects s)) as H.
    destruct (Functools.wrapper _ _ _ _ _ _) as [[r c] h]. simpl.
    split; [exact H|]. intros [] Hb; [congruence | reflexivity].
  - pose proof (wrapper_outcome _ _ _ call_args_eqb 2
                  (get_model_config_body rt w)
                  args (model_cache s) (objects s)) as H.
    destruct (Functools.wrapper _ _ _ _ _ _) as [[r c] h]. simpl.
    split; [exact H|]. intros [] Hb; [reflexivity | congruence].
Qed.

(** A call on a cached key: the cached object, nothing constructed. *)
Lemma access_hit a w args s r :
  cache_get args (entries (cache_of a s)) = Some r ->
  exists s',
    acc a w args s = (Ok r, s') /\
    objects s' = objects s /\
    entries (cache_of a s') = (args, r) :: unlink args (entries (cache_of a s)) /\
    misses (cache_of a s') = misses (cache_of a s).
Proof.
  intros G.
  destruct a; unfold access, cache_of in *;
    unfold get_infer_config, get_model_config;
    rewrite (wrapper_hit _ _ _ call_args_eqb 2 _ _ _ _ _ G);
    eexists; repeat split.
Qed.

(** A call on a key that is not cached runs the body. *)
Lemma access_miss a w args s :
  cache_get args (entries (cache_of a s)) = None ->
  misses (cache_of a (snd (acc a w args s))) = misses (cache_of a s) + 1 /\
  match fst (acc a w args s) with
  | Ok r =>
      r = length (objects s) /\
      (exists o, objects (snd (acc a w args s)) = (objects s ++ [o])%list) /\
      entries (cache_of a (snd (acc a w args s))) =
        (args, r) :: (if Nat.leb 2 (length (entries (cache_of a s)))
                      then removelast (entries (cache_of a s))
                      else entries (cache_of a s))
  | Raise _ =>
      objects (snd (acc a w args s)) = objects s /\
      entries (cache_of a (snd (acc a w args s))) = entries (cache_of a s)
  end.
Proof.
  intros G. pose proof (body_spec a w args (objects s)) as B.
  destruct a; unfold access, body, cache_of in *;
    unfold get_infer_config, get_model_config;
    rewrite (wrapper_miss _ _ _ call_args_eqb 2 _ _ _ _ G);
    match goal with
    | |- context [match ?x with _ => _ end] => destruct x as [[r|e] h]
    end; cbn [fst snd objects infer_cache model_cache
              Functools.entries Functools.misses];
    intuition.
Qed.

(** The heap only grows. *)
Lemma access_objects a w args s :
  length (objects s) <= length (objects (snd (acc a w args s))).
Proof.
  destruct (cache_get args (entries (cache_of a s))) as [r|] eqn:G.
  - destruct (access_hit a w args s r G) as [s' [E [Ho _]]].
    rewrite E. simpl. rewrite Ho. lia.
  - destruct (access_miss a w args s G) as [_ H].
    destruct (fst (acc a w args s)).
    + destruct H as [_ [[o Ho] _]]. rewrite Ho, length_app. simpl. lia.
    + destruct H as [Ho _]. rewrite Ho. lia.
Qed.

(** What holds of every state the module reaches: each cache has distinct
    keys, at most two entries, and refers to objects of the heap. *)
Definition consistent (s : state) : Prop :=
  forall a,
    bounded 2 (cache_of a s) /\
    Forall (fun e => snd e < length (objects s)) (entries (cache_of a s)).

Lemma access_consistent a w args s :
  consistent s -> consistent (snd (acc a w args s)).
Proof.
  intros C b. destruct (access_outcome a w args s) as [H Hother].
  pose proof (access_objects a w args s) as Hlen.
  destruct (C b) as [Bb Vb].
  assert (Hweak : forall l,
            Forall (fun e : call_args * ref => snd e < length (objects s)) l ->
            Forall (fun e => snd e < length (objects (snd (acc a w args s)))) l).
  { intros l. apply Forall_impl. intros e He. unfold ref in *. lia. }
  assert (Hdec : b = a \/ b <> a) by (destruct a, b; auto; right; discriminate).
  destruct Hdec as [->|Hne].
  - split.
    + eapply outcome_bounded; eauto using call_args_eqb_spec.
    + destruct (cache_get args (entries (cache_of a s))) as [r|] eqn:G.
      * destruct (access_hit a w args s r G) as [s' [E [Ho [He _]]]].
        rewrite E in *. simpl in *. rewrite He. rewrite Ho in *.
        assert (Hin : Forall (fun e => snd e < length (objects s))
                        ((args, r) :: entries (cache_of a s))).
        { constructor; auto. simpl.
          clear - G Vb. induction (entries (cache_of a s)) as [|[k v] l IH];
            simpl in G; [discriminate|].
          inversion Vb; subst. destruct (call_args_eqb args k).
          - inversion G; subst. assumption.
          - auto. }
        inversion Hin; subst. constructor; auto.
        rewrite Forall_forall in *. intros x Hx. apply Vb.
        eapply unlink_incl; eauto.
      * destruct (access_miss a w args s G) as [_ Hm].
        destruct (fst (acc a w args s)).
        -- destruct Hm as [-> [[o Ho] He]]. rewrite He, Ho, length_app.
           cbn [length]. constructor; [cbn [snd]; lia|].
           rewrite Forall_forall in *. intros x Hx.
           assert (In x (entries (cache_of a s))).
           { destruct (Nat.leb 2 _); auto. now apply removelast_incl. }
           specialize (Vb x H0). unfold ref in *. lia.
        -- destruct Hm as [Ho He]. rewrite He, Ho. assumption.
  - rewrite (Hother b Hne). split; auto.
Qed.

Lemma reachable_consistent s : reach s -> consistent s.
Proof.
  induction 1 as [|a w args s R IH].
  - intros a. split; [split|]; destruct a; simpl; try constructor; lia.
  - now apply access_consistent.
Qed.

End AccessorFacts.

(** ** The caches of the accessors *)

Section CacheProperties.

Variable rt : builtins.
Variable default_config_path : Path.

Local Abbreviation acc := (access rt default_config_path).
Local Abbreviation reach := (reachable rt default_config_path).
Local Abbreviation cache_get := (Functools.cache_get call_args_eqb).
Local Abbreviation unlink := (Functools.unlink call_args_eqb).
Local Abbreviation entries := (@Functools.entries call_args ref).
Local Abbreviation misses := (@Functools.misses call_args ref).

Lemma call_args_eqb_refl k : call_args_eqb k k = true.
Proof. now apply call_args_eqb_spec. Qed.

Lemma call_args_eqb_neq k k' : k <> k' -> call_args_eqb k k' = false.
Proof.
  intros H. destruct (call_args_eqb k k') eqn:E; auto.
  apply call_args_eqb_spec in E. tauto.
Qed.

(** After a call that returns an object, its key is the most recent entry. *)
Lemma access_front a w k s r s' :
  acc a w k s = (Ok r, s') ->
  exists rest, entries (cache_of a s') = (k, r) :: rest.
Proof.
  intros E. destruct (cache_get k (entries (cache_of a s))) as [v|] eqn:G.
  - destruct (access_hit rt default_config_path a w k s v G)
      as [s'' [E' [_ [He _]]]].
    rewrite E in E'. inversion E'; subst. eauto.
  - destruct (access_miss rt default_config_path a w k s G) as [_ H].
    rewrite E in H. cbn [fst snd] in H. destruct H as [_ [_ He]]. eauto.
Qed.

(** A call for another key leaves the most recent entry in the cache. *)
Lemma access_keeps_front a w k s k1 r1 rest :
  entries (cache_of a s) = (k1, r1) :: rest ->
  k <> k1 ->
  cache_get k1 (entries (cache_of a (snd (acc a w k s)))) = Some r1.
Proof.
  intros He Hne.
  assert (Hk1 : cache_get k1 (entries (cache_of a s)) = Some r1).
  { rewrite He. cbn [Functools.cache_get]. now rewrite call_args_eqb_refl. }
  destruct (cache_get k (entries (cache_of a s))) as [v|] eqn:G.
  - destruct (access_hit rt default_config_path a w k s v G)
      as [s' [E [_ [He' _]]]].
    rewrite E. cbn [snd]. rewrite He'. cbn [Functools.cache_get].
    rewrite call_args_eqb_neq by congruence.
    rewrite (cache_get_unlink_other _ _ call_args_eqb call_args_eqb_spec)
      by congruence.
    exact Hk1.
  - destruct (access_miss rt default_config_path a w k s G) as [_ H].
    destruct (fst (acc a w k s)).
    + destruct H as [_ [_ He']]. rewrite He'. cbn [Functools.cache_get].
      rewrite call_args_eqb_neq by congruence.
      rewrite He. destruct rest as [|x rest]; cbn [length Nat.leb].
      * cbn [Functools.cache_get]. now rewrite call_args_eqb_refl.
      * change (removelast ((k1, r1) :: x :: rest))
          with ((k1, r1) :: removelast (x :: rest)).
        destruct (Nat.leb 2 (S (S (length rest))));
          cbn [Functools.cache_get]; now rewrite call_args_eqb_refl.
    + destruct H as [_ He']. now rewrite He'.
Qed.

(** With [k1] in front, a call for another key that returns an object
    leaves exactly the two: the new key, then [k1]. *)
Lemma access_second a w k s k1 r1 rest r s' :
  bounded 2 (cache_of a s) ->
  entries (cache_of a s) = (k1, r1) :: rest ->
  k <> k1 ->
  acc a w k s = (Ok r, s') ->
  entries (cache_of a s') = [(k, r); (k1, r1)].
Proof.
  intros [ND Len] He Hne E. rewrite He in Len, ND.
  destruct (cache_get k (entries (cache_of a s))) as [v|] eqn:G.
  - destruct (access_hit rt default_config_path a w k s v G)
      as [s'' [E' [_ [He' _]]]].
    rewrite E in E'. inversion E'; subst v s''. rewrite He'.
    rewrite He in G |- *. cbn [Functools.cache_get Functools.unlink] in G |- *.
    rewrite call_args_eqb_neq in G |- * by congruence.
    destruct rest as [|[k2 r2] [|y rest]]; cbn [length] in Len;
      [discriminate G | | lia].
    cbn [Functools.cache_get Functools.unlink] in G |- *.
    destruct (call_args_eqb k k2) eqn:Ek; [reflexivity | discriminate G].
  - destruct (access_miss rt default_config_path a w k s G) as [_ H].
    rewrite E in H. cbn [fst snd] in H. destruct H as [_ [_ He']].
    rewrite He', He.
    destruct rest as [|x [|y rest]]; cbn [length] in Len |- *;
      [reflexivity | reflexivity | lia].
Qed.

(** With two entries, a call for a third key that returns an object drops
    the older entry and keeps the newer. *)
Lemma access_third a w k s k2 r2 k1 r1 r s' :
  entries (cache_of a s) = [(k2, r2); (k1, r1)] ->
  k <> k2 -> k <> k1 ->
  acc a w k s = (Ok r, s') ->
  entries (cache_of a s') = [(k, r); (k2, r2)].
Proof.
  intros He H2 H1 E.
  assert (G : cache_get k (entries (cache_of a s)) = None).
  { rewrite He. cbn [Functools.cache_get].
    now rewrite !call_args_eqb_neq by assumption. }
  destruct (access_miss rt default_config_path a w k s G) as [_ H].
  rewrite E in H. cbn [fst snd] in H. destruct H as [_ [_ He']].
  rewrite He', He. reflexivity.
Qed.

(** A call for a key that is not cached, when it returns an object, returns
    a new one. *)
Lemma access_fresh a w k s r s' :
  cache_get k (entries (cache_of a s)) = None ->
  acc a w k s = (Ok r, s') ->
  r = length (objects s) /\
  (exists o, objects s' = (objects s ++ [o])%list) /\
  misses (cache_of a s') = misses (cache_of a s) + 1.
Proof.
  intros G E.
  destruct (access_miss rt default_config_path a w k s G) as [Hm H].
  rewrite E in H, Hm. cbn [fst snd] in H, Hm. tauto.
Qed.

End CacheProperties.

(** C5, as lru_cache keys its entries. In every reachable state, the cache
    of each accessor holds at most two entries, and no two of them have the
    same key: the arguments of the call in the form they were passed. *)
Theorem cache_one_entry_per_key (rt : builtins) (default_config_path : Path)
    (a : accessor) (s : state) :
  reachable rt default_config_path s ->
  NoDup (map fst (Functools.entries (cache_of a s))) /\
  length (Functools.entries (cache_of a s)) <= 2.
Proof.
  intros R. apply (reachable_consistent rt default_config_path s R a).
Qed.

Lemma cache_one_entry_per_key_witness :
  Functools.entries (cache_of Model busy_state) =
    [(Positional (mkPath "other.json"), 2);
     (Positional (mkPath "model.json"), 0)] /\
  Functools.hits (cache_of Model busy_state) = 1 /\
  Functools.misses (cache_of Model busy_state) = 3 /\
  length (objects busy_state) = 3 /\
  NoDup (map fst (Functools.entries (cache_of Model busy_state))) /\
  length (Functools.entries (cache_of Model busy_state)) <= 2.
Proof.
  split; [vm_compute; reflexivity|].
  split; [vm_compute; reflexivity|].
  split; [vm_compute; reflexivity|].
  split; [vm_compute; reflexivity|].
  apply (cache_one_entry_per_key example_builtins example_default_path Model).
  unfold busy_state, model_call. repeat apply reachable_access.
  apply reachable_initial.
Defined.

(** C5 as stated fails: the same path passed positionally and by keyword
    makes two entries of the model cache, and a defaulted call and a call
    with the default path make two of the inference cache. *)
Lemma two_entries_for_one_path :
  exists s,
    reachable example_builtins example_default_path s /\
    Functools.entries (cache_of Model s) =
      [(Keyword (mkPath "model.json"), 1);
       (Positional (mkPath "model.json"), 0)] /\
    bound_path example_default_path Model (Keyword (mkPath "model.json")) =
    bound_path example_default_path Model (Positional (mkPath "model.json")) /\
    Functools.entries (cache_of Infer s) =
      [(Positional example_default_path, 3); (NoArgs, 2)] /\
    bound_path example_default_path Infer (Positional example_default_path) =
    bound_path example_default_path Infer NoArgs.
Proof.
  exists (snd (access example_builtins example_default_path Infer example_world
                 (Positional example_default_path)
          (snd (access example_builtins example_default_path Infer example_world
                 NoArgs
          (snd (access example_builtins example_default_path Model example_world
                 (Keyword (mkPath "model.json"))
          (snd (access example_builtins example_default_path Model example_world
                 (Positional (mkPath "model.json")) initial_state)))))))).
  split; [repeat apply reachable_access; apply reachable_initial|].
  vm_compute. repeat split.
Qed.

(** C4, as lru_cache keys its entries. Take a call of an accessor that
    returns an object [r1] for the arguments [k1].
    (a) The same arguments again, passed in the same form, return [r1]: no
        object is constructed and no miss is counted, whatever the files
        now hold.
    (b) So it is after a call with other arguments in between.
    (c) After two calls with two other, different arguments that both
        return objects, the cache holds those two and [k1] is evicted: the
        next call for [k1] that returns, returns a new object.
    (d) If [k1] is called again between those two, the entry evicted is the
        other one, the least recently used, and [k1] stays. *)
Theorem cached_accessor_lru (rt : builtins) (default_config_path : Path)
    (a : accessor) (s0 s1 : state) (w1 : world) (k1 : call_args) (r1 : ref) :
  let acc := access rt default_config_path in
  reachable rt default_config_path s0 ->
  acc a w1 k1 s0 = (Ok r1, s1) ->
  (forall w, exists s2,
     acc a w k1 s1 = (Ok r1, s2) /\
     objects s2 = objects s1 /\
     Functools.misses (cache_of a s2) = Functools.misses (cache_of a s1)) /\
  (forall w2 k2 r2 s2 w,
     k2 <> k1 ->
     acc a w2 k2 s1 = (r2, s2) ->
     exists s3,
       acc a w k1 s2 = (Ok r1, s3) /\
       objects s3 = objects s2 /\
       Functools.misses (cache_of a s3) = Functools.misses (cache_of a s2)) /\
  (forall w2 k2 r2 s2 w3 k3 r3 s3,
     k2 <> k1 -> k3 <> k1 -> k3 <> k2 ->
     acc a w2 k2 s1 = (Ok r2, s2) ->
     acc a w3 k3 s2 = (Ok r3, s3) ->
     Functools.entries (cache_of a s3) = [(k3, r3); (k2, r2)] /\
     forall w4 r4 s4,
       acc a w4 k1 s3 = (Ok r4, s4) ->
       r4 = length (objects s3) /\ r4 <> r1 /\
       (exists o, objects s4 = (objects s3 ++ [o])%list) /\
       Functools.misses (cache_of a s4) =
         Functools.misses (cache_of a s3) + 1) /\
  (forall w2 k2 r2 s2 w s2' w3 k3 r3 s3,
     k2 <> k1 -> k3 <> k1 -> k3 <> k2 ->
     acc a w2 k2 s1 = (Ok r2, s2) ->
     acc a w k1 s2 = (Ok r1, s2') ->
     acc a w3 k3 s2' = (Ok r3, s3) ->
     Functools.entries (cache_of a s3) = [(k3, r3); (k1, r1)]).
Proof.
  intros acc R E1.
  pose proof (reachable_consistent rt default_config_path s0 R) as C0.
  assert (C1 : consistent s1).
  { pose proof (access_consistent rt default_config_path a w1 k1 s0 C0) as C.
    unfold acc in E1. now rewrite E1 in C. }
  destruct (access_front rt default_config_path a w1 k1 s0 r1 s1 E1)
    as [rest Hfront].
  assert (Hget : Functools.cache_get call_args_eqb k1
                   (Functools.entries (cache_of a s1)) = Some r1).
  { rewrite Hfront. cbn [Functools.cache_get]. now rewrite call_args_eqb_refl. }
  assert (Hr1 : r1 < length (objects s1)).
  { destruct (C1 a) as [_ V]. rewrite Hfront in V. now inversion V. }
  assert (Hkeep : forall w2 k2 r2 s2,
            k2 <> k1 -> acc a w2 k2 s1 = (r2, s2) ->
            Functools.cache_get call_args_eqb k1
              (Functools.entries (cache_of a s2)) = Some r1).
  { intros w2 k2 r2 s2 Hne E2.
    pose proof (access_keeps_front rt default_config_path a w2 k2 s1 k1 r1 rest
                  Hfront Hne) as H.
    unfold acc in E2. now rewrite E2 in H. }
  assert (Hgrow : forall a' w k s r s',
            acc a' w k s = (r, s') -> length (objects s) <= length (objects s')).
  { intros a' w k s r s' E.
    pose proof (access_objects rt default_config_path a' w k s) as H.
    unfold acc in E. now rewrite E in H. }
  split; [|split; [|split]].
  - intros w.
    destruct (access_hit rt default_config_path a w k1 s1 r1 Hget)
      as [s2 [E [Ho [_ Hm]]]].
    exists s2. auto.
  - intros w2 k2 r2 s2 w Hne E2.
    destruct (access_hit rt default_config_path a w k1 s2 r1
                (Hkeep w2 k2 r2 s2 Hne E2)) as [s3 [E [Ho [_ Hm]]]].
    exists s3. auto.
  - intros w2 k2 r2 s2 w3 k3 r3 s3 H21 H31 H32 E2 E3.
    destruct (C1 a) as [B1 _].
    pose proof (access_second rt default_config_path a w2 k2 s1 k1 r1 rest r2 s2
                  B1 Hfront H21 E2) as He2.
    pose proof (access_third rt default_config_path a w3 k3 s2 k2 r2 k1 r1 r3 s3
                  He2 H32 H31 E3) as He3.
    split; [exact He3|].
    intros w4 r4 s4 E4.
    assert (G : Functools.cache_get call_args_eqb k1
                  (Functools.entries (cache_of a s3)) = None).
    { rewrite He3. cbn [Functools.cache_get].
      rewrite !call_args_eqb_neq by congruence. reflexivity. }
    destruct (access_fresh rt default_config_path a w4 k1 s3 r4 s4 G E4)
      as [Hr4 [Ho Hm]].
    repeat split; auto.
    pose proof (Hgrow _ _ _ _ _ _ E2). pose proof (Hgrow _ _ _ _ _ _ E3).
    unfold ref in *. lia.
  - intros w2 k2 r2 s2 w s2' w3 k3 r3 s3 H21 H31 H32 E2 Eh E3.
    destruct (C1 a) as [B1 _].
    pose proof (access_second rt default_config_path a w2 k2 s1 k1 r1 rest r2 s2
                  B1 Hfront H21 E2) as He2.
    destruct (access_hit rt default_config_path a w k1 s2 r1
                (Hkeep w2 k2 (Ok r2) s2 H21 E2)) as [s2'' [E [_ [He _]]]].
    unfold acc in Eh. rewrite Eh in E. inversion E; subst s2''.
    rewrite He2 in He. cbn [Functools.unlink] in He.
    rewrite call_args_eqb_neq, call_args_eqb_refl in He by congruence.
    apply (access_third rt default_config_path a w3 k3 s2' k1 r1 k2 r2 r3 s3
             He H31 H32 E3).
Qed.

Lemma cached_accessor_lru_witness :
  reachable example_builtins example_default_path initial_state /\
  (forall w, exists s2,
     access example_builtins example_default_path Model w
       (Positional (mkPath "model.json"))
       (model_call (Positional (mkPath "model.json")) initial_state)
     = (Ok 0, s2) /\
     objects s2 =
       objects (model_call (Positional (mkPath "model.json")) initial_state) /\
     Functools.misses (cache_of Model s2) =
       Functools.misses
         (cache_of Model
            (model_call (Positional (mkPath "model.json")) initial_state))) /\
  (forall w, exists s3,
     access example_builtins example_default_path Model w
       (Positional (mkPath "model.json"))
       (model_call (Keyword (mkPath "model.json"))
          (model_call (Positional (mkPath "model.json")) initial_state))
     = (Ok 0, s3) /\
     objects s3 =
       objects (model_call (Keyword (mkPath "model.json"))
                  (model_call (Positional (mkPath "model.json"))
                     initial_state))) /\
  Functools.entries (cache_of Model evicted_state) =
    [(Positional (mkPath "other.json"), 2);
     (Keyword (mkPath "model.json"), 1)] /\
  fst (access example_builtins example_default_path Model example_world
         (Positional (mkPath "model.json")) evicted_state) = Ok 3 /\
  3 = length (objects evicted_state) /\
  Functools.misses
    (cache_of Model
       (model_call (Positional (mkPath "model.json")) evicted_state)) =
    Functools.misses (cache_of Model evicted_state) + 1 /\
  Functools.entries (cache_of Model busy_state) =
    [(Positional (mkPath "other.json"), 2);
     (Positional (mkPath "model.json"), 0)].
Proof.
  assert (E1 : access example_builtins example_default_path Model example_world
                 (Positional (mkPath "model.json")) initial_state =
               (Ok 0, model_call (Positional (mkPath "model.json"))
                        initial_state))
    by (vm_compute; reflexivity).
  assert (E2 : access example_builtins example_default_path Model example_world
                 (Keyword (mkPath "model.json"))
                 (model_call (Positional (mkPath "model.json")) initial_state) =
               (Ok 1, model_call (Keyword (mkPath "model.json"))
                        (model_call (Positional (mkPath "model.json"))
                           initial_state)))
    by (vm_compute; reflexivity).
  assert (E3 : access example_builtins example_default_path Model example_world
                 (Positional (mkPath "other.json"))
                 (model_call (Keyword (mkPath "model.json"))
                    (model_call (Positional (mkPath "model.json"))
                       initial_state)) =
               (Ok 2, evicted_state))
    by (vm_compute; reflexivity).
  assert (E4 : access example_builtins example_default_path Model example_world
                 (Positional (mkPath "model.json")) evicted_state =
               (Ok 3, model_call (Positional (mkPath "model.json"))
                        evicted_state))
    by (vm_compute; reflexivity).
  assert (Eh : access example_builtins example_default_path Model example_world
                 (Positional (mkPath "model.json"))
                 (model_call (Keyword (mkPath "model.json"))
                    (model_call (Positional (mkPath "model.json"))
                       initial_state)) =
               (Ok 0, model_call (Positional (mkPath "model.json"))
                        (model_call (Keyword (mkPath "model.json"))
                           (model_call (Positional (mkPath "model.json"))
                              initial_state))))
    by (vm_compute; reflexivity).
  assert (E3' : access example_builtins example_default_path Model example_world
                  (Positional (mkPath "other.json"))
                  (model_call (Positional (mkPath "model.json"))
                     (model_call (Keyword (mkPath "model.json"))
                        (model_call (Positional (mkPath "model.json"))
                           initial_state))) =
                (Ok 2, busy_state))
    by (vm_compute; reflexivity).
  assert (N21 : Keyword (mkPath "model.json") <> Positional (mkPath "model.json"))
    by discriminate.
  assert (N31 : Positional (mkPath "other.json")
                <> Positional (mkPath "model.json")) by discriminate.
  assert (N32 : Positional (mkPath "other.json")
                <> Keyword (mkPath "model.json")) by discriminate.
  pose proof (cached_accessor_lru example_builtins example_default_path Model
                initial_state _ example_world _ 0
                (reachable_initial example_builtins example_default_path) E1)
    as [Ha [Hb [Hc Hd]]].
  split; [apply reachable_initial|]. split; [exact Ha|].
  split.
  { intros w. destruct (Hb _ _ _ _ w N21 E2) as [s3 [H3 [Ho _]]].
    exists s3. split; assumption. }
  destruct (Hc _ _ _ _ _ _ _ _ N21 N31 N32 E2 E3) as [Hentries Hnext].
  destruct (Hnext _ _ _ E4) as [Hlen [_ [_ Hmiss]]].
  split; [exact Hentries|]. split; [now rewrite E4|].
  split; [exact Hlen|]. split; [exact Hmiss|].
  exact (Hd _ _ _ _ _ _ _ _ _ _ N21 N31 N32 E2 Eh E3').
Defined.

(** C4 as stated fails: two calls of [get_model_config] with the same path,
    one positional and one by keyword, construct two objects; the second
    call is a miss. *)
Lemma same_path_two_objects :
  exists r1 s1 r2 s2,
    get_model_config example_builtins example_world
      (Positional (mkPath "model.json")) initial_state = (Ok r1, s1) /\
    get_model_config example_builtins example_world
      (Keyword (mkPath "model.json")) s1 = (Ok r2, s2) /\
    bound_path example_default_path Model (Positional (mkPath "model.json")) =
    bound_path example_default_path Model (Keyword (mkPath "model.json")) /\
    r1 <> r2 /\
    Functools.misses (model_cache s2) = Functools.misses (model_cache s1) + 1 /\
    length (objects s2) = length (objects s1) + 1.
Proof.
  do 4 eexists. split; [vm_compute; reflexivity|].
  split; [vm_compute; reflexivity|].
  repeat split. discriminate.
Qed.

(** ** The accessors and the constructors

    A call that misses the cache is the constructor called on the bound
    path: its object is returned as a new reference, its exception is passed
    on and nothing is cached. *)
Lemma access_constructs (rt : builtins) (default_config_path : Path)
    (a : accessor) (w : world) (args : call_args) (p : Path) (s : state) :
  bound_path default_config_path a args = Some p ->
  Functools.cache_get call_args_eqb args (Functools.entries (cache_of a s))
    = None ->
  match BaseSettings_init rt (class_of rt a) [("json_config_path", VPath p)]
          (env_settings w) (file_secret_settings w) (fs w) with
  | Ok settings =>
      fst (access rt default_config_path a w args s) = Ok (length (objects s)) /\
      objects (snd (access rt default_config_path a w args s)) =
        (objects s ++ [settings])%list
  | Raise e =>
      fst (access rt default_config_path a w args s) = Raise e /\
      objects (snd (access rt default_config_path a w args s)) = objects s /\
      Functools.entries (cache_of a (snd (access rt default_config_path a w args s)))
        = Functools.entries (cache_of a s)
  end.
Proof.
  intros Hp G.
  destruct a; unfold access, class_of, cache_of in *;
    unfold get_infer_config, get_model_config;
    rewrite (wrapper_miss _ _ _ call_args_eqb 2 _ _ _ _ G);
    unfold get_infer_config_body, get_model_config_body, construct;
    destruct args; cbn [bound_path] in Hp; inversion Hp; subst;
    match goal with
    | |- context [BaseSettings_init ?r ?c ?k ?e ?x ?f] =>
        destruct (BaseSettings_init r c k e x f)
    end; repeat split.
Qed.

(** * Further properties of the module *)

(** ** The loop of the JSON source (lines 40-50) *)

Section LoaderFacts.

Variables (fs : filesystem) (settings : model_class).

Let classname := class_name settings.
Let encoding := env_file_encoding (config settings).

(** A loop that returns has loaded every path, and returns the updates of
    the accumulator by the files' objects, in order. *)
Lemma load_Ok_inv paths : forall idx merged result,
  JsonSettingsSource.load fs classname encoding idx paths merged = Ok result ->
  exists contents,
    Forall2 (loads fs encoding) paths contents /\
    result = fold_left dict_update contents merged.
Proof.
  induction paths as [|p paths IH]; intros idx merged result H; simpl in H.
  - inversion H. exists []. split; [constructor | reflexivity].
  - destruct (fs p) as [| |r] eqn:Ef; try discriminate.
    destruct (r encoding) as [d|e] eqn:Er; [|discriminate].
    simpl in H. destruct (IH _ _ _ H) as [contents [Hc Hr]].
    exists (d :: contents). split; [|exact Hr].
    constructor; [|exact Hc]. exists r. auto.
Qed.

Lemma dict_get_fold_update k contents : forall merged,
  Forall dict_wf contents ->
  dict_get k (fold_left dict_update contents merged) =
  fold_left
    (fun found d => match dict_get k d with Some v => Some v | None => found end)
    contents (dict_get k merged).
Proof.
  induction contents as [|d contents IH]; intros merged W; [reflexivity|].
  inversion W as [|? ? Wd Wc]; subst. simpl.
  rewrite IH by assumption. now rewrite dict_get_update.
Qed.

Lemma keys_dict_update k d other :
  In k (keys (dict_update d other)) <-> In k (keys d) \/ In k (keys other).
Proof.
  unfold dict_update. revert d.
  induction other as [|[k1 v1] o IH]; intros d; simpl; [tauto|].
  rewrite IH, keys_dict_set.
  destruct (mem k1 (keys d)) eqn:M.
  - apply mem_In in M. split; [intros [H|H]; auto | intros [H|[H|H]]; auto].
    subst. auto.
  - rewrite in_app_iff. simpl. tauto.
Qed.

Lemma keys_fold_update k contents : forall merged,
  In k (keys (fold_left dict_update contents merged)) <->
  In k (keys merged) \/ exists d, In d contents /\ In k (keys d).
Proof.
  induction contents as [|d contents IH]; intros merged; simpl.
  - split; [auto | intros [H|[d [[] _]]]; auto].
  - rewrite IH, keys_dict_update. split.
    + intros [[H|H]|[d' [I H]]]; eauto.
    + intros [H|[d' [[<-|I] H]]]; eauto.
Qed.

Lemma fold_update_wf contents : forall merged,
  dict_wf merged -> dict_wf (fold_left dict_update contents merged).
Proof.
  induction contents as [|d contents IH]; intros merged W; simpl; auto.
  apply IH. now apply dict_update_wf.
Qed.

(** The loop cannot tell apart two file systems that show it the same at
    the paths it is given. *)
Lemma load_same_view fs' paths : forall idx merged,
  Forall (fun p => same_view encoding (fs p) (fs' p)) paths ->
  JsonSettingsSource.load fs classname encoding idx paths merged =
  JsonSettingsSource.load fs' classname encoding idx paths merged.
Proof.
  induction paths as [|p paths IH]; intros idx merged H; [reflexivity|].
  inversion H as [|? ? Hp Hrest]; subst. simpl.
  destruct (fs p) as [| |r], (fs' p) as [| |r']; simpl in Hp;
    try reflexivity; try contradiction.
  rewrite Hp. destruct (r' encoding); simpl; auto.
Qed.

End LoaderFacts.

(** X1. When every path of the list is a file that loads, the loader returns
    a mapping in which each key has the value of the last file that has it,
    and keys no file has are absent. *)
Theorem merge_last_file_wins (fs : filesystem) (settings : model_class)
    (paths : list Path) (contents : list dict) :
  Forall2 (loads fs (env_file_encoding (config settings))) paths contents ->
  Forall dict_wf contents ->
  exists merged,
    JsonSettingsSource.call paths settings fs = Ok merged /\
    forall k, dict_get k merged = last_value k contents.
Proof.
  intros H W. exists (fold_left dict_update contents []). split.
  - unfold JsonSettingsSource.call.
    rewrite <- (app_nil_r paths).
    now rewrite (load_loaded_prefix fs settings paths contents).
  - intros k. now rewrite dict_get_fold_update.
Qed.

Lemma merge_last_file_wins_witness :
  exists merged,
    JsonSettingsSource.call
      [mkPath "model.json"; mkPath "first.json"; mkPath "second.json"]
      (model (ModelConfig example_builtins)) layered_fs = Ok merged /\
    dict_get "name" merged = Some (VStr "first") /\
    dict_get "steps" merged = Some (VInt 30) /\
    dict_get "base" merged = Some (VStr "b") /\
    dict_get "path" merged = Some (VStr "m.ckpt") /\
    dict_get "seed" merged = None /\
    forall k,
      dict_get k merged =
      last_value k [example_model_json; first_json; second_json].
Proof.
  destruct (merge_last_file_wins layered_fs
              (model (ModelConfig example_builtins))
              [mkPath "model.json"; mkPath "first.json"; mkPath "second.json"]
              [example_model_json; first_json; second_json])
    as [merged [Hcall Hkeys]].
  - repeat constructor; eexists; split; reflexivity.
  - repeat (apply Forall_cons; [unfold dict_wf; simpl; distinct_strings|]).
    apply Forall_nil.
  - exists merged. split; [exact Hcall|].
    split; [exact (Hkeys "name")|]. split; [exact (Hkeys "steps")|].
    split; [exact (Hkeys "base")|]. split; [exact (Hkeys "path")|].
    split; [exact (Hkeys "seed") | exact Hkeys].
Defined.

(** X2. The exception of reading or parsing a file leaves the loader as it
    is: when the files before it load, the loader raises that exception,
    whatever paths come after. *)
Theorem first_failing_file_propagates (fs : filesystem)
    (settings : model_class) (pre post : list Path) (contents : list dict)
    (p : Path) (read_json : string -> result dict) (e : exn) :
  Forall2 (loads fs (env_file_encoding (config settings))) pre contents ->
  fs p = File read_json ->
  read_json (env_file_encoding (config settings)) = Raise e ->
  JsonSettingsSource.call (pre ++ p :: post) settings fs = Raise e.
Proof.
  intros H Hf Hr. unfold JsonSettingsSource.call.
  rewrite (load_loaded_prefix fs settings pre contents) by assumption.
  simpl. now rewrite Hf, Hr.
Qed.

Lemma first_failing_file_propagates_witness :
  JsonSettingsSource.call
    ([mkPath "model.json"] ++ mkPath "broken.json" :: [mkPath "gone.json"])
    (model (ModelConfig example_builtins)) broken_fs = Raise JSONDecodeError.
Proof.
  apply (first_failing_file_propagates broken_fs
           (model (ModelConfig example_builtins))
           [mkPath "model.json"] [mkPath "gone.json"] [example_model_json]
           (mkPath "broken.json") (fun _ => Raise JSONDecodeError)).
  - repeat constructor. eexists. split; reflexivity.
  - reflexivity.
  - reflexivity.
Defined.

(** X3. The loader depends on the file system only at the paths it is
    given, and there only on whether the path is a regular file and on what
    the file reads as under the class's encoding. *)
Theorem loader_reads_only_listed_paths (fs fs' : filesystem)
    (settings : model_class) (paths : list Path) :
  Forall (fun p => same_view (env_file_encoding (config settings))
                     (fs p) (fs' p)) paths ->
  JsonSettingsSource.call paths settings fs =
  JsonSettingsSource.call paths settings fs'.
Proof. intros H. now apply load_same_view. Qed.

Lemma loader_reads_only_listed_paths_witness :
  JsonSettingsSource.call [mkPath "model.json"; mkPath "gone.json"]
    (model (ModelConfig example_builtins)) example_fs =
  JsonSettingsSource.call [mkPath "model.json"; mkPath "gone.json"]
    (model (ModelConfig example_builtins)) broken_fs.
Proof.
  apply (loader_reads_only_listed_paths example_fs broken_fs
           (model (ModelConfig example_builtins))
           [mkPath "model.json"; mkPath "gone.json"]).
  repeat constructor; reflexivity.
Defined.

(** X4. When the loader returns a mapping, every path of the list was a file
    that loads, the mapping has no key twice, and its keys are the keys of
    those files and no others. *)
Theorem loaded_mapping_keys (fs : filesystem) (settings : model_class)
    (paths : list Path) (merged : dict) :
  JsonSettingsSource.call paths settings fs = Ok merged ->
  dict_wf merged /\
  Forall (fun p => exists d,
            loads fs (env_file_encoding (config settings)) p d) paths /\
  forall k,
    In k (keys merged) <->
    exists p d,
      In p paths /\ loads fs (env_file_encoding (config settings)) p d /\
      In k (keys d).
Proof.
  intros H. unfold JsonSettingsSource.call in H.
  destruct (load_Ok_inv fs settings paths 0 [] merged H) as [contents [Hc ->]].
  split; [|split].
  - apply fold_update_wf. constructor.
  - clear H. induction Hc; constructor; eauto.
  - intros k. rewrite keys_fold_update. split.
    + intros [[]|[d [Id Hk]]].
      clear H. induction Hc as [|p d' paths contents Hl Hc IH];
        [destruct Id|].
      destruct Id as [->|Id].
      * exists p, d. simpl. auto.
      * destruct (IH Id) as [p' [d'' [Ip [Hl' Hk']]]].
        exists p', d''. simpl. auto.
    + intros [p [d [Ip [[r [Hf Hr]] Hk]]]]. right.
      clear H. induction Hc as [|p' d' paths contents [r' [Hf' Hr']] Hc IH];
        [destruct Ip|].
      destruct Ip as [->|Ip].
      * exists d'. split; [now left|].
        rewrite Hf in Hf'. inversion Hf'; subst r'.
        rewrite Hr in Hr'. inversion Hr'; subst d'. exact Hk.
      * destruct (IH Ip) as [d'' [Id Hk']]. exists d''. split; [now right | exact Hk'].
Qed.

Lemma loaded_mapping_keys_witness :
  dict_wf (example_infer_json ++ example_model_json)%list /\
  Forall (fun p => exists d, loads example_fs "utf-8" p d)
    [mkPath "infer.json"; mkPath "model.json"] /\
  forall k,
    In k (keys (example_infer_json ++ example_model_json)%list) <->
    exists p d,
      In p [mkPath "infer.json"; mkPath "model.json"] /\
      loads example_fs "utf-8" p d /\ In k (keys d).
Proof.
  apply (loaded_mapping_keys example_fs (model (ModelConfig example_builtins))
           [mkPath "infer.json"; mkPath "model.json"]
           (example_infer_json ++ example_model_json)%list).
  reflexivity.
Defined.

(** ** Building the JSON source (lines 25-32, 68-71) *)

(** X5. Given a list, [__init__] makes one path per item, in order, when
    every item is a str or a Path; one item of another kind makes it raise a
    TypeError, and no source is built. *)
Theorem init_list_of_paths (rt : builtins) (l : list value) :
  (forallb is_pathlike l = true ->
   exists paths,
     JsonSettingsSource.init rt (VList l) = Ok paths /\
     Forall2 (fun x p => x = VPath p \/
                         exists s, x = VStr s /\ p = path_of_str rt s)
             l paths) /\
  (forallb is_pathlike l = false ->
   exists msg, JsonSettingsSource.init rt (VList l) = Raise (TypeError msg)).
Proof.
  cbn [JsonSettingsSource.init]. induction l as [|x l [IHt IHf]].
  - split; [|discriminate]. intros _. exists []. split; [reflexivity|constructor].
  - cbn [forallb JsonSettingsSource.Path_new_all]. split; intros H.
    + apply andb_true_iff in H. destruct H as [Hx Hl].
      destruct (IHt Hl) as [paths [Hp Hf]].
      destruct x; try discriminate Hx;
        cbn [JsonSettingsSource.Path_new bind]; rewrite Hp;
        cbn [bind]; eexists; (split; [reflexivity|]); constructor; eauto.
    + destruct x; cbn [JsonSettingsSource.Path_new bind];
        try (eexists; reflexivity);
        cbn [is_pathlike andb] in H; destruct (IHf H) as [msg Hm];
        rewrite Hm; eexists; reflexivity.
Qed.

(** X6. When the [json_config_path] init argument is a value no source can
    be built from, construction raises the exception of building the source,
    on every file system: no file is read and no field is validated. *)
Theorem bad_json_config_path_raises (rt : builtins) (cls : settings_class)
    (kw : dict) (env sec : source) (fs : filesystem) (v : value) (e : exn) :
  customise_sources cls = JsonConfig.customise_sources rt ->
  dict_get "json_config_path" kw = Some v ->
  JsonSettingsSource.init rt v = Raise e ->
  BaseSettings_init rt cls kw env sec fs = Raise e.
Proof.
  intros Hhook Hv He. unfold BaseSettings_init.
  rewrite (build_values_json_config rt cls Hhook).
  unfold dict_pop. rewrite Hv, He. reflexivity.
Qed.

Lemma bad_json_config_path_raises_witness :
  BaseSettings_init example_builtins (ModelConfig example_builtins)
    [("name", VInt 3); ("json_config_path", VList [VStr "model.json"; VInt 5])]
    silent_source silent_source example_fs =
  Raise (TypeError "expected str, bytes or os.PathLike object, not int").
Proof.
  apply (bad_json_config_path_raises example_builtins
           (ModelConfig example_builtins) _ silent_source silent_source
           example_fs (VList [VStr "model.json"; VInt 5])).
  - reflexivity.
  - reflexivity.
  - reflexivity.
Defined.

(** ** Validated objects (lines 80-86, 96-108) *)

Section ObjectFacts.

Variable rt : builtins.
Variable input_data : dict.

Local Abbreviation run := (fold_left (validate_field rt input_data)).

Lemma run_clean_values l : forall st,
  errors (run l st) = [] ->
  exists vs,
    Forall2 (fun f v' =>
               exists v, field_input input_data f = Some v /\
                         validate rt (outer_type f) [LField (name f)] v = inl v')
            l vs.
Proof.
  induction l as [|f l IH]; intros st H; [exists []; constructor|].
  simpl in H. destruct (IH _ H) as [vs Hvs].
  destruct (run_errors rt input_data l (validate_field rt input_data st f))
    as [es He].
  rewrite He in H. apply app_eq_nil in H. destruct H as [H _].
  pose proof (validate_field_cases rt input_data st f) as Hc. cbv zeta in Hc.
  destruct (field_input input_data f) as [v|] eqn:Ein.
  - destruct (validate rt (outer_type f) [LField (name f)] v) as [v'|es'] eqn:Ev.
    + exists (v' :: vs). constructor; [|exact Hvs].
      exists v. split; [exact Ein | exact Ev].
    + destruct Hc as [_ Hc]. rewrite Hc in H. apply app_eq_nil in H.
      destruct H as [_ H]. now apply validate_reports in Ev.
  - destruct Hc as [_ Hc]. rewrite Hc in H. apply app_eq_nil in H.
    destruct H as [_ H]. discriminate.
Qed.

Lemma keys_combine (names : list string) (vs : list value) :
  length names = length vs -> keys (combine names vs) = names.
Proof.
  revert vs. induction names as [|n names IH]; intros [|v vs] H;
    try discriminate; [reflexivity|].
  simpl. f_equal. apply IH. now inversion H.
Qed.

(** The values of a run without errors: one item per field, in order. *)
Lemma run_clean_items l vs :
  NoDup (map name l) ->
  Forall2 (fun f v' =>
             exists v, field_input input_data f = Some v /\
                       validate rt (outer_type f) [LField (name f)] v = inl v')
          l vs ->
  values (run l {| values := []; errors := []; names_used := [] |}) =
    combine (map name l) vs.
Proof.
  intros ND H.
  destruct (run_valid rt input_data l vs
              {| values := []; errors := []; names_used := [] |} H) as [Hv _].
  rewrite Hv. cbn [values]. apply dict_update_fresh. simpl.
  rewrite keys_combine; [exact ND|].
  rewrite length_map. eapply Forall2_length; eauto.
Qed.

(** Only fields are recorded as used. *)
Lemma run_names_used_incl l : forall st x,
  In x (names_used (run l st)) ->
  In x (names_used st) \/ In x (map name l).
Proof.
  induction l as [|f l IH]; intros st x H; [now left|].
  simpl in H. apply IH in H. destruct H as [H|H]; [|right; now right].
  unfold validate_field in H.
  destruct (dict_get (name f) input_data) as [v|].
  - destruct (validate rt (outer_type f) [LField (name f)] v);
      cbn [names_used] in H; apply in_app_or in H;
      destruct H as [H|[<-|[]]]; auto; right; now left.
  - destruct (default f) as [v|]; [|now left].
    destruct (validate rt (outer_type f) [LField (name f)] v);
      cbn [names_used] in H; now left.
Qed.

End ObjectFacts.

Lemma In_insert_sorted k x l : In x (insert_sorted k l) <-> x = k \/ In x l.
Proof.
  induction l as [|y l IH]; simpl; [intuition|].
  destruct (String.leb k y); simpl; [intuition|].
  rewrite IH. intuition.
Qed.

Lemma In_sorted x l : In x (sorted l) <-> In x l.
Proof.
  unfold sorted. induction l as [|y l IH]; simpl; [tauto|].
  rewrite In_insert_sorted, IH. intuition.
Qed.

(** Validating a validated value again changes nothing. *)
Lemma validate_items_again (validate_item : list loc_item -> value -> validated)
    loc l :
  (forall loc0 v v', validate_item loc0 v = inl v' ->
                     forall loc', validate_item loc' v' = inl v') ->
  forall i result,
    validate_items validate_item loc i l = (result, []) ->
    forall loc' j, validate_items validate_item loc' j result = (result, []).
Proof.
  intros Hitem. induction l as [|x l IH]; intros i result H loc' j.
  - simpl in H. inversion H. reflexivity.
  - simpl in H.
    destruct (validate_items validate_item loc (S i) l) as [rs es] eqn:El.
    destruct (validate_item (loc ++ [LIndex i])%list x) as [r|ee] eqn:Ex.
    + inversion H; subst. simpl.
      rewrite (IH (S i) rs El loc' (S j)).
      now rewrite (Hitem _ _ _ Ex).
    + injection H as Hr He. apply app_eq_nil in He. destruct He as [_ Hes].
      subst rs es. apply (IH (S i) result El).
Qed.

Lemma validate_again rt t : forall loc v v',
  validate rt t loc v = inl v' -> forall loc', validate rt t loc' v' = inl v'.
Proof.
  induction t as [| | | |item IH|]; intros loc v v' H loc';
    destruct v; simpl in H;
    repeat match type of H with
           | context [match ?x with _ => _ end] =>
               lazymatch x with
               | validate_items _ _ _ _ => fail
               | _ => destruct x eqn:?
               end
           end;
    try discriminate; try (inversion H; subst; reflexivity).
  destruct (validate_items (validate rt item) loc 0 l) as [rs [|e0 es]] eqn:El;
    inversion H; subst.
  simpl. now rewrite (validate_items_again (validate rt item) loc l IH 0 rs El).
Qed.

(** Looking the fields up in a dictionary that agrees with their items. *)
Lemma fields_lookup (l : list field) : forall (vs : list value) (d : dict),
  NoDup (map name l) ->
  length l = length vs ->
  (forall k, In k (map name l) ->
             dict_get k d = dict_get k (combine (map name l) vs)) ->
  Forall2 (fun f v' => dict_get (name f) d = Some v') l vs.
Proof.
  induction l as [|f l IH]; intros [|v vs] d ND Hlen Hd;
    try discriminate; constructor.
  - rewrite Hd by now left. simpl. now rewrite String.eqb_refl.
  - simpl in ND. inversion ND as [|? ? Hnin ND']; subst.
    apply IH; auto. intros k Hk. rewrite Hd by now right.
    simpl. destruct (String.eqb_spec k (name f)); [congruence | reflexivity].
Qed.

(** X7. In a successful construction of a [JsonConfig] class, each field is
    validated from the init argument when one is given (deep-updated over
    the file's value when both are given), else from the value of the JSON
    source, else from the declared default. *)
Theorem field_source_precedence (rt : builtins) (cls : settings_class)
    (kw : dict) (env sec : source) (fs : filesystem)
    (f : field) (loaded : dict) (obj : object) :
  customise_sources cls = JsonConfig.customise_sources rt ->
  NoDup (map name (fields (model cls))) ->
  In f (fields (model cls)) ->
  name f <> "json_config_path" ->
  dict_wf kw ->
  json_source_mapping rt cls kw fs = Ok loaded ->
  BaseSettings_init rt cls kw env sec fs = Ok obj ->
  exists v v',
    source_value kw loaded f = Some v /\
    validate rt (outer_type f) [LField (name f)] v = inl v' /\
    dict_get (name f) (obj_dict obj) = Some v'.
Proof.
  intros Hhook ND If Hne W Hload Hinit.
  destruct (BaseSettings_init_Ok rt cls Hhook _ _ _ _ _ Hinit)
    as [loaded' [kwargs [jcp [Hpop [Hload' [Hclean Hobj]]]]]].
  assert (loaded' = loaded) by congruence. subst loaded'.
  destruct (dict_pop_spec _ _ _ _ _ W Hpop) as [_ [Wk [_ Hother]]].
  unfold validate_model in Hclean, Hobj. cbn [fst snd] in Hclean, Hobj.
  apply app_eq_nil in Hclean. destruct Hclean as [Hclean _].
  destruct (run_clean rt _ _ _ ND Hclean) as [_ [Hfields _]].
  destruct (Hfields f If) as [v [v' [Hv [Hval Hget]]]].
  exists v, v'. rewrite Hobj. repeat split; auto.
  rewrite <- Hv. unfold field_input, source_value.
  rewrite dict_get_deep_update1 by assumption.
  rewrite (Hother (name f) Hne).
  destruct (dict_get (name f) kw), (dict_get (name f) loaded); reflexivity.
Qed.

Lemma field_source_precedence_witness :
  exists v v',
    source_value
      [("json_config_path", VPath (mkPath "model.json")); ("steps", VStr "30")]
      example_model_json
      {| name := "steps"; outer_type := TInt; default := Some (VInt 25) |}
      = Some v /\
    validate example_builtins TInt [LField "steps"] v = inl v' /\
    dict_get "steps"
      [("name", VStr "x"); ("base", VStr "b");
       ("path", VPath (mkPath "m.ckpt"));
       ("motion_module", VPath (mkPath "mm.ckpt"));
       ("seed", VList []); ("steps", VInt 30);
       ("guidance_scale", VFloat 7.5); ("prompt", VList []);
       ("n_prompt", VList [])] = Some v'.
Proof.
  apply (field_source_precedence example_builtins
           (ModelConfig example_builtins)
           [("json_config_path", VPath (mkPath "model.json"));
            ("steps", VStr "30")]
           silent_source silent_source example_fs
           {| name := "steps"; outer_type := TInt; default := Some (VInt 25) |}
           example_model_json
           {| obj_class := "ModelConfig";
              obj_dict :=
                [("name", VStr "x"); ("base", VStr "b");
                 ("path", VPath (mkPath "m.ckpt"));
                 ("motion_module", VPath (mkPath "mm.ckpt"));
                 ("seed", VList []); ("steps", VInt 30);
                 ("guidance_scale", VFloat 7.5); ("prompt", VList []);
                 ("n_prompt", VList [])] |}).
  - reflexivity.
  - simpl. distinct_strings.
  - simpl. tauto.
  - simpl. discriminate.
  - unfold dict_wf. simpl. distinct_strings.
  - reflexivity.
  - vm_compute. reflexivity.
Defined.

(** The fields of an object that [BaseModel.__init__] returns. *)
Lemma BaseModel_init_items rt cls data obj :
  NoDup (map name (fields cls)) ->
  BaseModel_init rt cls data = Ok obj ->
  exists vs,
    Forall2 (fun f v' =>
               exists v, field_input data f = Some v /\
                         validate rt (outer_type f) [LField (name f)] v = inl v')
            (fields cls) vs /\
    obj = {| obj_class := class_name cls;
             obj_dict := combine (map name (fields cls)) vs |}.
Proof.
  intros ND H. apply BaseModel_init_Ok in H. destruct H as [Hclean ->].
  unfold validate_model in *. cbn [fst snd] in *.
  apply app_eq_nil in Hclean. destruct Hclean as [Hclean _].
  destruct (run_clean_values rt data _ _ Hclean) as [vs Hvs].
  exists vs. split; [exact Hvs|].
  now rewrite (run_clean_items rt data _ vs ND Hvs).
Qed.

(** X8. An object that is constructed is of its class and has exactly the
    declared fields, each once, in the order of declaration. *)
Theorem constructed_object_fields (rt : builtins) (cls : settings_class)
    (kw : dict) (env sec : source) (fs : filesystem) (obj : object) :
  NoDup (map name (fields (model cls))) ->
  BaseSettings_init rt cls kw env sec fs = Ok obj ->
  obj_class obj = class_name (model cls) /\
  keys (obj_dict obj) = map name (fields (model cls)).
Proof.
  intros ND H. unfold BaseSettings_init in H.
  destruct (BaseSettings_build_values cls kw env sec fs) as [data|e];
    [|discriminate].
  cbn [bind] in H.
  destruct (BaseModel_init_items rt (model cls) data obj ND H) as [vs [Hvs ->]].
  split; [reflexivity|]. cbn [obj_dict].
  apply keys_combine. rewrite length_map. eapply Forall2_length; eauto.
Qed.

Lemma constructed_object_fields_witness :
  obj_class
    {| obj_class := "InferenceConfig";
       obj_dict := [("unet_additional_kwargs", VDict [("b", VInt 2)]);
                    ("noise_scheduler_kwargs", VDict [])] |}
  = class_name (model (InferenceConfig example_builtins)) /\
  keys [("unet_additional_kwargs", VDict [("b", VInt 2)]);
        ("noise_scheduler_kwargs", VDict [])]
  = map name (fields (model (InferenceConfig example_builtins))).
Proof.
  apply (constructed_object_fields example_builtins
           (InferenceConfig example_builtins)
           [("json_config_path", VPath (mkPath "infer.json"))]
           silent_source silent_source example_fs
           {| obj_class := "InferenceConfig";
              obj_dict := [("unet_additional_kwargs", VDict [("b", VInt 2)]);
                           ("noise_scheduler_kwargs", VDict [])] |}).
  - simpl. distinct_strings.
  - vm_compute. reflexivity.
Defined.

Lemma Forall2_both (A B : Type) (P Q : A -> B -> Prop) l1 l2 :
  Forall2 P l1 l2 -> Forall2 Q l1 l2 ->
  Forall2 (fun a b => P a b /\ Q a b) l1 l2.
Proof.
  intros HP. induction HP; intros HQ; inversion HQ; subst; constructor; auto.
Qed.

(** No field has the name of the first parameter of [__init__]. *)
Lemma fields_not_reserved (cls : model_class) :
  ~ In "__pydantic_self__" (map name (fields cls)).
Proof.
  intros I. apply in_map_iff in I. destruct I as [f [E If]].
  pose proof (fields_valid cls) as H. rewrite forallb_forall in H.
  specialize (H f If). rewrite E in H. discriminate H.
Qed.

(** X9. An object of a [JsonConfig] class whose [json_config_path] attribute
    is None can be constructed again from its own fields, without a file: the
    result is the object itself.  Validation leaves validated values as they
    are, and without a path the JSON source adds nothing. *)
Theorem object_round_trip (rt : builtins) (cls : settings_class)
    (kw : dict) (env sec env' sec' : source) (fs fs' : filesystem)
    (obj : object) :
  customise_sources cls = JsonConfig.customise_sources rt ->
  json_config_path (config (model cls)) = VNone ->
  NoDup (map name (fields (model cls))) ->
  ~ In "json_config_path" (map name (fields (model cls))) ->
  BaseSettings_init rt cls kw env sec fs = Ok obj ->
  BaseSettings_init rt cls (obj_dict obj) env' sec' fs' = Ok obj.
Proof.
  intros Hhook Hattr ND Hnf Hinit. unfold BaseSettings_init in Hinit.
  destruct (BaseSettings_build_values cls kw env sec fs) as [data|e];
    [|discriminate].
  cbn [bind] in Hinit.
  destruct (BaseModel_init_items rt (model cls) data obj ND Hinit)
    as [vs [Hvs ->]].
  cbn [obj_dict].
  assert (Hlen : length (fields (model cls)) = length vs)
    by (eapply Forall2_length; eauto).
  assert (Hkeys : keys (combine (map name (fields (model cls))) vs) =
                  map name (fields (model cls)))
    by (apply keys_combine; now rewrite length_map).
  assert (Wk : dict_wf (combine (map name (fields (model cls))) vs))
    by (unfold dict_wf; now rewrite Hkeys).
  assert (Hnone : dict_get "json_config_path"
                    (combine (map name (fields (model cls))) vs) = None)
    by (apply dict_get_None_iff; now rewrite Hkeys).
  destruct (build_values_without_json rt cls Hhook _ env' sec' fs'
              Hattr Wk Hnone) as [values [Hb Hlook]].
  unfold BaseSettings_init. rewrite Hb. cbn [bind].
  assert (Hvs' : Forall2
            (fun f v' =>
               exists v, field_input values f = Some v /\
                         validate rt (outer_type f) [LField (name f)] v = inl v')
            (fields (model cls)) vs).
  { pose proof (fields_lookup (fields (model cls)) vs values ND Hlen
                  (fun k _ => Hlook k)) as Hl.
    eapply Forall2_impl; [|exact (Forall2_both _ _ _ _ _ _ Hvs Hl)].
    intros f v' [[v [_ Hval]] Hget]. exists v'. split.
    - unfold field_input. now rewrite Hget.
    - exact (validate_again rt _ _ _ _ Hval _). }
  destruct (run_valid rt values _ vs
              {| values := []; errors := []; names_used := [] |} Hvs')
    as [_ Herrs].
  pose proof (run_clean_items rt values _ vs ND Hvs') as Hvals.
  assert (Hextra : extra_keys values
            (names_used
               (fold_left (validate_field rt values) (fields (model cls))
                  {| values := []; errors := []; names_used := [] |})) = []).
  { apply extra_keys_none. intros k Ik.
    assert (Hk : dict_get k values <> None)
      by (intros E; apply dict_get_None_iff in E; tauto).
    assert (Ik' : In k (map name (fields (model cls)))).
    { rewrite <- Hkeys.
      destruct (in_dec string_dec k
                  (keys (combine (map name (fields (model cls))) vs)))
        as [I|N]; [exact I|].
      apply dict_get_None_iff in N. rewrite <- Hlook in N. contradiction. }
    apply in_map_iff in Ik'. destruct Ik' as [f [<- If]].
    now apply run_names_used. }
  assert (Hself : ~ In "__pydantic_self__" (keys values)).
  { intros I. apply (fields_not_reserved (model cls)). rewrite <- Hkeys.
    destruct (in_dec string_dec "__pydantic_self__"
                (keys (combine (map name (fields (model cls))) vs)))
      as [I'|N]; [exact I'|].
    apply dict_get_None_iff in N. rewrite <- Hlook in N.
    apply dict_get_None_iff in N. contradiction. }
  unfold BaseModel_init. rewrite (mem_false _ _ Hself).
  unfold validate_model. cbv zeta.
  rewrite Hvals, Herrs, Hextra. reflexivity.
Qed.

Lemma object_round_trip_witness :
  BaseSettings_init example_builtins (ModelConfig example_builtins)
    (obj_dict
       {| obj_class := "ModelConfig";
          obj_dict :=
            [("name", VStr "y"); ("base", VStr "b2");
             ("path", VPath (mkPath "m2.ckpt"));
             ("motion_module", VPath (mkPath "mm2.ckpt"));
             ("seed", VList [VInt 1; VInt 2]); ("steps", VInt 30);
             ("guidance_scale", VFloat 8); ("prompt", VList [VStr "a cat"]);
             ("n_prompt", VList [])] |})
    silent_source steps_env empty_fs =
  Ok {| obj_class := "ModelConfig";
        obj_dict :=
          [("name", VStr "y"); ("base", VStr "b2");
           ("path", VPath (mkPath "m2.ckpt"));
           ("motion_module", VPath (mkPath "mm2.ckpt"));
           ("seed", VList [VInt 1; VInt 2]); ("steps", VInt 30);
           ("guidance_scale", VFloat 8); ("prompt", VList [VStr "a cat"]);
           ("n_prompt", VList [])] |}.
Proof.
  apply (object_round_trip example_builtins (ModelConfig example_builtins)
           [("json_config_path", VPath (mkPath "full.json"))]
           silent_source silent_source silent_source steps_env
           (with_entry "full.json" (json_file full_model_json) empty_fs)
           empty_fs).
  - reflexivity.
  - reflexivity.
  - simpl. distinct_strings.
  - simpl. intuition discriminate.
  - vm_compute. reflexivity.
Defined.

(** X10. A key of the merged mapping that names no field makes construction
    raise: unknown settings are refused, not ignored.  Unless the mapping
    holds the reserved keyword or an exception escaped the validators, what
    is raised is a ValidationError with the extra-field error at that key. *)
Theorem unknown_key_rejected (rt : builtins) (cls : settings_class)
    (kw merged : dict) (env sec : source) (fs : filesystem) (k : string) :
  BaseSettings_build_values cls kw env sec fs = Ok merged ->
  In k (keys merged) ->
  ~ In k (map name (fields (model cls))) ->
  (exists e, BaseSettings_init rt cls kw env sec fs = Raise e) /\
  (~ In "__pydantic_self__" (keys merged) ->
   escapes (snd (validate_model rt (model cls) merged)) = false ->
   exists errs,
     BaseSettings_init rt cls kw env sec fs = Raise (ValidationError errs) /\
     In ([LField k], ExtraError) errs).
Proof.
  intros Hb Ik Hnf. unfold BaseSettings_init. rewrite Hb. cbn [bind].
  assert (Hin : In ([LField k], ExtraError)
                  (snd (validate_model rt (model cls) merged))).
  { unfold validate_model. cbn [snd]. apply in_or_app. right.
    apply in_map_iff. exists k. split; [reflexivity|].
    apply In_sorted. unfold extra_keys. apply filter_In. split; [exact Ik|].
    destruct (mem k _) eqn:M; [|reflexivity].
    apply mem_In in M. apply run_names_used_incl in M.
    destruct M as [[]|M]. contradiction. }
  assert (Hne : snd (validate_model rt (model cls) merged) <> [])
    by (intros E; rewrite E in Hin; destruct Hin).
  split; [now apply BaseModel_init_fails|].
  intros Hk Hesc. exists (snd (validate_model rt (model cls) merged)).
  split; [now apply BaseModel_init_Raise | exact Hin].
Qed.

Lemma unknown_key_rejected_witness :
  (exists e,
     BaseSettings_init example_builtins (ModelConfig example_builtins)
       [("json_config_path", VPath (mkPath "model.json")); ("stepz", VInt 30)]
       silent_source silent_source example_fs = Raise e) /\
  exists errs,
    BaseSettings_init example_builtins (ModelConfig example_builtins)
      [("json_config_path", VPath (mkPath "model.json")); ("stepz", VInt 30)]
      silent_source silent_source example_fs = Raise (ValidationError errs) /\
    In ([LField "stepz"], ExtraError) errs.
Proof.
  destruct (unknown_key_rejected example_builtins
              (ModelConfig example_builtins)
              [("json_config_path", VPath (mkPath "model.json"));
               ("stepz", VInt 30)]
              (example_model_json ++ [("stepz", VInt 30)])%list
              silent_source silent_source example_fs "stepz")
    as [Hraise Herr].
  - reflexivity.
  - simpl. tauto.
  - simpl. intuition discriminate.
  - split; [exact Hraise|]. apply Herr.
    + simpl. intuition discriminate.
    + vm_compute. reflexivity.
Defined.

(** ** The accessors (lines 88-93, 111-114) *)

Section AccessorExtras.

Variable rt : builtins.
Variable default_config_path : Path.

Local Abbreviation acc := (access rt default_config_path).
Local Abbreviation reach := (reachable rt default_config_path).
Local Abbreviation calls_from := (run_calls rt default_config_path).
Local Abbreviation cache_get := (Functools.cache_get call_args_eqb).
Local Abbreviation entries := (@Functools.entries call_args ref).

Lemma class_of_hook a :
  customise_sources (class_of rt a) = JsonConfig.customise_sources rt.
Proof. destruct a; reflexivity. Qed.

Lemma class_of_fields_distinct a :
  NoDup (map name (fields (model (class_of rt a)))).
Proof. destruct a; simpl; distinct_strings. Qed.

(** A call that misses and returns has constructed: it bound a path, the
    constructor returned an object, and the object is the new last one of
    the heap. *)
Lemma access_made a w args s r s' :
  cache_get args (entries (cache_of a s)) = None ->
  acc a w args s = (Ok r, s') ->
  exists p o,
    bound_path default_config_path a args = Some p /\
    BaseSettings_init rt (class_of rt a) [("json_config_path", VPath p)]
      (env_settings w) (file_secret_settings w) (fs w) = Ok o /\
    r = length (objects s) /\
    objects s' = (objects s ++ [o])%list.
Proof.
  intros G E.
  destruct (bound_path default_config_path a args) as [p|] eqn:Hp.
  - pose proof (access_constructs rt default_config_path a w args p s Hp G) as H.
    rewrite E in H. cbn [fst snd] in H.
    destruct (BaseSettings_init rt (class_of rt a) _ _ _ _) as [o|e] eqn:Hi.
    + destruct H as [Hr Ho]. inversion Hr. exists p, o. auto.
    + destruct H as [Hr _]. discriminate.
  - exfalso. destruct a, args; try discriminate Hp.
    unfold access, get_model_config, cache_of in *.
    rewrite (wrapper_miss _ _ _ call_args_eqb 2 _ _ _ _ G) in E.
    discriminate E.
Qed.

(** The heap after a call extends the heap before it. *)
Lemma access_extends a w args s :
  exists more, objects (snd (acc a w args s)) = (objects s ++ more)%list.
Proof.
  destruct (cache_get args (entries (cache_of a s))) as [r|] eqn:G.
  - destruct (access_hit rt default_config_path a w args s r G)
      as [s' [E [Ho _]]].
    rewrite E. cbn [snd]. exists []. now rewrite app_nil_r.
  - destruct (access_miss rt default_config_path a w args s G) as [_ H].
    destruct (fst (acc a w args s)).
    + destruct H as [_ [[o Ho] _]]. exists [o]. exact Ho.
    + destruct H as [Ho _]. exists []. now rewrite app_nil_r.
Qed.

Lemma run_calls_cons a w args calls s :
  calls_from ((a, w, args) :: calls) s =
  calls_from calls (snd (acc a w args s)).
Proof. reflexivity. Qed.

Lemma run_calls_extends calls : forall s,
  exists more, objects (calls_from calls s) = (objects s ++ more)%list.
Proof.
  induction calls as [|[[a w] args] calls IH]; intros s.
  - exists []. simpl. now rewrite app_nil_r.
  - rewrite run_calls_cons.
    destruct (IH (snd (acc a w args s))) as [more Hm].
    destruct (access_extends a w args s) as [more0 H0].
    exists (more0 ++ more)%list. rewrite Hm, H0. now rewrite app_assoc.
Qed.

Lemma run_calls_reachable calls : forall s, reach s -> reach (calls_from calls s).
Proof.
  induction calls as [|[[a w] args] calls IH]; intros s R; [exact R|].
  rewrite run_calls_cons. apply IH. now apply reachable_access.
Qed.

(** Calls of the other accessors leave the cache of [a] alone. *)
Lemma run_calls_other_cache a calls : forall s,
  Forall (fun c : call => fst (fst c) <> a) calls ->
  cache_of a (calls_from calls s) = cache_of a s.
Proof.
  induction calls as [|[[b w] args] calls IH]; intros s H; [reflexivity|].
  inversion H as [|? ? Hb Hrest]; subst. simpl in Hb.
  rewrite run_calls_cons, IH by assumption.
  destruct (access_outcome rt default_config_path b w args s) as [_ Ho].
  apply Ho. congruence.
Qed.

Lemma cache_get_In k (l : list (call_args * ref)) r :
  cache_get k l = Some r -> In (k, r) l.
Proof.
  induction l as [|[k' r'] l IH]; simpl; [discriminate|].
  destruct (call_args_eqb k k') eqn:E.
  - apply call_args_eqb_spec in E. intros H. inversion H. subst. now left.
  - intros H. right. auto.
Qed.

(** Every entry of a cache refers to an object of the accessor's class. *)
Definition typed (s : state) : Prop :=
  forall a k r,
    In (k, r) (entries (cache_of a s)) ->
    exists obj, nth_error (objects s) r = Some obj /\ instance_of rt a obj.

Lemma access_typed a w args s : typed s -> typed (snd (acc a w args s)).
Proof.
  intros T b k r I.
  destruct (access_extends a w args s) as [more Hmore].
  assert (Hold : forall r' obj,
            nth_error (objects s) r' = Some obj ->
            nth_error (objects (snd (acc a w args s))) r' = Some obj).
  { intros r' obj H. rewrite Hmore. rewrite nth_error_app1; [exact H|].
    apply nth_error_Some. congruence. }
  assert (Hkeep : In (k, r) (entries (cache_of b s)) ->
            exists obj, nth_error (objects (snd (acc a w args s))) r = Some obj
                        /\ instance_of rt b obj).
  { intros I0. destruct (T b k r I0) as [obj [Hn Hi]]. eauto. }
  assert (Hdec : b = a \/ b <> a) by (destruct a, b; auto; right; discriminate).
  destruct Hdec as [->|Hne].
  - destruct (cache_get args (entries (cache_of a s))) as [v|] eqn:G.
    + destruct (access_hit rt default_config_path a w args s v G)
        as [s' [E [_ [He _]]]].
      rewrite E in I. cbn [snd] in I. rewrite He in I.
      apply Hkeep. destruct I as [I|I].
      * inversion I; subst. now apply cache_get_In.
      * eapply unlink_incl; eauto.
    + destruct (acc a w args s) as [[v|e] s'] eqn:E.
      * destruct (access_made a w args s v s' G E) as [p [o [_ [Hinit [Hv Ho]]]]].
        destruct (access_miss rt default_config_path a w args s G) as [_ Hm].
        rewrite E in Hm. cbn [fst snd] in Hm, I, Hkeep |- *.
        destruct Hm as [_ [_ He]]. rewrite He in I. destruct I as [I|I].
        -- inversion I; subst k r. exists o. split.
           ++ rewrite Ho, Hv, nth_error_app2, Nat.sub_diag;
                [reflexivity | lia].
           ++ unfold BaseSettings_init in Hinit.
              destruct (BaseSettings_build_values _ _ _ _ _) as [data|e0];
                [|discriminate].
              cbn [bind] in Hinit.
              destruct (BaseModel_init_items rt _ data o
                          (class_of_fields_distinct a) Hinit) as [vs [Hvs ->]].
              split; [reflexivity|]. cbn [obj_dict].
              apply keys_combine. rewrite length_map.
              eapply Forall2_length; eauto.
        -- apply Hkeep. destruct (Nat.leb 2 _); auto.
           now apply removelast_incl.
      * destruct (access_miss rt default_config_path a w args s G) as [_ Hm].
        rewrite E in Hm. cbn [fst snd] in Hm, I, Hkeep |- *.
        destruct Hm as [_ He]. rewrite He in I. now apply Hkeep.
  - destruct (access_outcome rt default_config_path a w args s) as [_ Ho].
    rewrite (Ho b Hne) in I. now apply Hkeep.
Qed.

Lemma reachable_typed s : reach s -> typed s.
Proof.
  induction 1 as [|a w args s R IH].
  - intros a k r I. destruct a; destruct I.
  - now apply access_typed.
Qed.

End AccessorExtras.

(** X11. A call that misses the cache and returns, on a path whose file
    holds the JSON object [d], returns an object in which every field is the
    value [d] gives it, as the field's type coerces it, or the validated
    default when [d] does not give it. *)
Theorem accessor_loads_file_values (rt : builtins) (default_config_path : Path)
    (a : accessor) (w : world) (args : call_args) (p : Path) (d : dict)
    (s s' : state) (r : ref) :
  bound_path default_config_path a args = Some p ->
  Functools.cache_get call_args_eqb args (Functools.entries (cache_of a s))
    = None ->
  loads (fs w) "utf-8" p d ->
  dict_wf d ->
  access rt default_config_path a w args s = (Ok r, s') ->
  exists obj,
    nth_error (objects s') r = Some obj /\
    forall f, In f (fields (model (class_of rt a))) ->
      exists v v',
        field_input d f = Some v /\
        validate rt (outer_type f) [LField (name f)] v = inl v' /\
        dict_get (name f) (obj_dict obj) = Some v'.
Proof.
  intros Hp G [rj [Hf Hr]] W E.
  destruct (access_made rt default_config_path a w args s r s' G E)
    as [p0 [o [Hp0 [Hinit [Hr0 Ho]]]]].
  assert (p0 = p) by congruence. subst p0.
  exists o. split.
  - rewrite Ho, Hr0, nth_error_app2, Nat.sub_diag; [reflexivity | lia].
  - assert (Hb : BaseSettings_build_values (class_of rt a)
                   [("json_config_path", VPath p)]
                   (env_settings w) (file_secret_settings w) (fs w) = Ok d).
    { rewrite (build_values_json_config rt _ (class_of_hook rt a)).
      destruct a; cbn; rewrite Hf; cbn; rewrite Hr; cbn [bind];
        change (fold_left _ d []) with (dict_update [] d);
        now rewrite (dict_update_empty d W). }
    unfold BaseSettings_init in Hinit. rewrite Hb in Hinit. cbn [bind] in Hinit.
    apply BaseModel_init_Ok in Hinit. destruct Hinit as [Hclean ->].
    unfold validate_model in *. cbn [fst snd obj_dict] in *.
    apply app_eq_nil in Hclean. destruct Hclean as [Hclean _].
    destruct (run_clean rt d _ _ (class_of_fields_distinct rt a) Hclean)
      as [_ [Hfields _]].
    exact Hfields.
Qed.

Lemma accessor_loads_file_values_witness :
  exists obj,
    nth_error
      (objects (snd (access example_builtins example_default_path Model
                       full_world (Keyword (mkPath "full.json"))
                       initial_state))) 0 = Some obj /\
    forall f, In f (fields (model (class_of example_builtins Model))) ->
      exists v v',
        field_input full_model_json f = Some v /\
        validate example_builtins (outer_type f) [LField (name f)] v = inl v' /\
        dict_get (name f) (obj_dict obj) = Some v'.
Proof.
  apply (accessor_loads_file_values example_builtins example_default_path
           Model full_world (Keyword (mkPath "full.json")) (mkPath "full.json")
           full_model_json initial_state).
  - reflexivity.
  - reflexivity.
  - eexists. split; reflexivity.
  - unfold dict_wf. simpl. distinct_strings.
  - vm_compute. reflexivity.
Defined.

(** X12. An exception is not cached. A call that raises leaves the cache and
    the heap of its accessor as they were, and the same call made again,
    once the constructor can succeed, constructs the object. *)
Theorem failed_call_is_retried (rt : builtins) (default_config_path : Path)
    (a : accessor) (w w' : world) (k : call_args) (p : Path)
    (s s1 : state) (e : exn) (o : object) :
  access rt default_config_path a w k s = (Raise e, s1) ->
  bound_path default_config_path a k = Some p ->
  BaseSettings_init rt (class_of rt a) [("json_config_path", VPath p)]
    (env_settings w') (file_secret_settings w') (fs w') = Ok o ->
  Functools.entries (cache_of a s1) = Functools.entries (cache_of a s) /\
  objects s1 = objects s /\
  exists s2,
    access rt default_config_path a w' k s1 = (Ok (length (objects s)), s2) /\
    objects s2 = (objects s ++ [o])%list.
Proof.
  intros E Hp Hinit.
  assert (G : Functools.cache_get call_args_eqb k
                (Functools.entries (cache_of a s)) = None).
  { destruct (Functools.cache_get call_args_eqb k
                (Functools.entries (cache_of a s))) as [v|] eqn:G; [|reflexivity].
    destruct (access_hit rt default_config_path a w k s v G) as [s' [E' _]].
    rewrite E in E'. discriminate. }
  destruct (access_miss rt default_config_path a w k s G) as [_ Hm].
  rewrite E in Hm. cbn [fst snd] in Hm. destruct Hm as [Ho He].
  repeat split; auto.
  assert (G1 : Functools.cache_get call_args_eqb k
                 (Functools.entries (cache_of a s1)) = None)
    by now rewrite He.
  pose proof (access_constructs rt default_config_path a w' k p s1 Hp G1) as H.
  rewrite Hinit in H. destruct H as [Hr Hobj].
  exists (snd (access rt default_config_path a w' k s1)).
  rewrite <- Ho. split; [|exact Hobj].
  rewrite <- Hr. apply surjective_pairing.
Qed.

Lemma failed_call_is_retried_witness :
  Functools.entries
    (cache_of Model
       (snd (access example_builtins example_default_path Model empty_world
               (Positional (mkPath "model.json")) initial_state))) =
  Functools.entries (cache_of Model initial_state) /\
  objects (snd (access example_builtins example_default_path Model empty_world
                  (Positional (mkPath "model.json")) initial_state)) =
  objects initial_state /\
  exists s2,
    access example_builtins example_default_path Model example_world
      (Positional (mkPath "model.json"))
      (snd (access example_builtins example_default_path Model empty_world
              (Positional (mkPath "model.json")) initial_state))
    = (Ok (length (objects initial_state)), s2) /\
    objects s2 =
      (objects initial_state ++
       [{| obj_class := "ModelConfig";
           obj_dict :=
             [("name", VStr "x"); ("base", VStr "b");
              ("path", VPath (mkPath "m.ckpt"));
              ("motion_module", VPath (mkPath "mm.ckpt"));
              ("seed", VList []); ("steps", VInt 25);
              ("guidance_scale", VFloat 7.5); ("prompt", VList []);
              ("n_prompt", VList [])] |}])%list.
Proof.
  apply (failed_call_is_retried example_builtins example_default_path Model
           empty_world example_world (Positional (mkPath "model.json"))
           (mkPath "model.json") initial_state _
           (FileNotFoundError
              "ModelConfig: config #1 at model.json not found or not a file")).
  - vm_compute. reflexivity.
  - reflexivity.
  - vm_compute. reflexivity.
Defined.

(** X13. The two accessors have separate caches: after a call of one that
    returns an object, any calls of the other one, however many, evict
    nothing from it; the same call again returns the same object and
    constructs nothing. *)
Theorem other_accessor_never_evicts (rt : builtins)
    (default_config_path : Path) (a : accessor) (s0 s1 : state) (w1 w : world)
    (k1 : call_args) (r1 : ref) (calls : list call) :
  access rt default_config_path a w1 k1 s0 = (Ok r1, s1) ->
  Forall (fun c : call => fst (fst c) <> a) calls ->
  exists s3,
    access rt default_config_path a w k1
      (run_calls rt default_config_path calls s1) = (Ok r1, s3) /\
    objects s3 = objects (run_calls rt default_config_path calls s1) /\
    Functools.misses (cache_of a s3) = Functools.misses (cache_of a s1).
Proof.
  intros E1 Hother.
  destruct (access_front rt default_config_path a w1 k1 s0 r1 s1 E1)
    as [rest Hfront].
  pose proof (run_calls_other_cache rt default_config_path a calls s1 Hother)
    as Hc.
  assert (G : Functools.cache_get call_args_eqb k1
                (Functools.entries
                   (cache_of a (run_calls rt default_config_path calls s1)))
              = Some r1).
  { rewrite Hc, Hfront. cbn [Functools.cache_get].
    now rewrite call_args_eqb_refl. }
  destruct (access_hit rt default_config_path a w k1 _ r1 G)
    as [s3 [E [Ho [_ Hm]]]].
  exists s3. rewrite <- Hc. auto.
Qed.

Lemma other_accessor_never_evicts_witness :
  exists s3,
    access example_builtins example_default_path Model empty_world
      (Positional (mkPath "model.json"))
      (run_calls example_builtins example_default_path
         [(Infer, example_world, NoArgs);
          (Infer, example_world, Positional (mkPath "infer.json"));
          (Infer, example_world, Keyword (mkPath "infer.json"))]
         (snd (access example_builtins example_default_path Model example_world
                 (Positional (mkPath "model.json")) initial_state)))
    = (Ok 0, s3) /\
    objects s3 =
      objects
        (run_calls example_builtins example_default_path
           [(Infer, example_world, NoArgs);
            (Infer, example_world, Positional (mkPath "infer.json"));
            (Infer, example_world, Keyword (mkPath "infer.json"))]
           (snd (access example_builtins example_default_path Model
                   example_world (Positional (mkPath "model.json"))
                   initial_state))) /\
    Functools.misses (cache_of Model s3) =
      Functools.misses
        (cache_of Model
           (snd (access example_builtins example_default_path Model
                   example_world (Positional (mkPath "model.json"))
                   initial_state))).
Proof.
  apply (other_accessor_never_evicts example_builtins example_default_path
           Model initial_state _ example_world empty_world
           (Positional (mkPath "model.json")) 0).
  - vm_compute. reflexivity.
  - repeat constructor; discriminate.
Defined.

(** X14. An object is never changed or dropped once it is made: whatever
    calls follow, also those that evict it from a cache, a reference denotes
    the object it denoted. *)
Theorem objects_never_change (rt : builtins) (default_config_path : Path)
    (calls : list call) (s : state) (r : ref) (obj : object) :
  nth_error (objects s) r = Some obj ->
  nth_error (objects (run_calls rt default_config_path calls s)) r = Some obj.
Proof.
  intros H.
  destruct (run_calls_extends rt default_config_path calls s) as [more Hm].
  rewrite Hm, nth_error_app1; [exact H|].
  apply nth_error_Some. congruence.
Qed.

Lemma objects_never_change_witness :
  nth_error
    (objects
       (run_calls example_builtins example_default_path
          [(Model, example_world, Positional (mkPath "other.json"));
           (Model, full_world, Positional (mkPath "full.json"));
           (Model, example_world, Positional (mkPath "model.json"))]
          (snd (access example_builtins example_default_path Model
                  example_world (Positional (mkPath "model.json"))
                  initial_state)))) 0 =
  Some {| obj_class := "ModelConfig";
          obj_dict :=
            [("name", VStr "x"); ("base", VStr "b");
             ("path", VPath (mkPath "m.ckpt"));
             ("motion_module", VPath (mkPath "mm.ckpt"));
             ("seed", VList []); ("steps", VInt 25);
             ("guidance_scale", VFloat 7.5); ("prompt", VList []);
             ("n_prompt", VList [])] |}.
Proof.
  apply (objects_never_change example_builtins example_default_path).
  vm_compute. reflexivity.
Defined.

(** X15. In every reachable state, a call of an accessor that returns,
    returns a reference to an object of the accessor's class that has
    exactly the declared fields: [get_model_config] a [ModelConfig],
    [get_infer_config] an [InferenceConfig], from the cache or new. *)
Theorem accessor_returns_instance (rt : builtins) (default_config_path : Path)
    (a : accessor) (w : world) (k : call_args) (s s' : state) (r : ref) :
  reachable rt default_config_path s ->
  access rt default_config_path a w k s = (Ok r, s') ->
  exists obj, nth_error (objects s') r = Some obj /\ instance_of rt a obj.
Proof.
  intros R E.
  assert (R' : reachable rt default_config_path s').
  { pose proof (reachable_access rt default_config_path a w k s R) as H.
    now rewrite E in H. }
  destruct (access_front rt default_config_path a w k s r s' E) as [rest Hf].
  apply (reachable_typed rt default_config_path s' R' a k r).
  rewrite Hf. now left.
Qed.

Lemma accessor_returns_instance_witness :
  exists obj,
    nth_error
      (objects (snd (access example_builtins example_default_path Infer
                       example_world NoArgs initial_state))) 0 = Some obj /\
    instance_of example_builtins Infer obj.
Proof.
  apply (accessor_returns_instance example_builtins example_default_path
           Infer example_world NoArgs initial_state).
  - apply reachable_initial.
  - vm_compute. reflexivity.
Defined.
